(** * Streamflow statistics and metrics (program_10.py)

    A shallow embedding of the metric functions and the aggregation
    tables of [program_10.py], with the properties stated about them.

    Numbers.  The program computes with IEEE doubles held in pandas
    Series.  Two readings of them are used.

    - Where a statement is about structure (which rows fall in which
      bucket, which differences are taken, which cell is missing) a
      double is an exact rational or one of the three special values:
      type [fl].  Rounding is not modelled there and the two zeros are
      not told apart (a division by zero takes the sign of the
      numerator).  A missing discharge is the value [NaN], as in pandas.

    - Where a statement depends on rounding (a comparison with a
      computed mean, the equality of two computed quotients) the
      doubles are the primitive binary64 floats: module [IEEE]. *)

From Stdlib Require Import String ZArith QArith Qabs List Bool Lia Lqa Sorted
  Permutation.
From Stdlib Require Floats.
Import ListNotations.
Open Scope Q_scope.

(** ** Extended rationals: the values of a float column *)

Inductive fl : Type :=
| Fin (q : Q)
| PInf
| NInf
| NaN.

(** Equality of values: rationals up to [==], the special values as they are. *)
Definition feq (a b : fl) : Prop :=
  match a, b with
  | Fin x, Fin y => x == y
  | PInf, PInf | NInf, NInf | NaN, NaN => True
  | _, _ => False
  end.

Infix "=f=" := feq (at level 70, no associativity).

Definition isna (a : fl) : bool :=
  match a with NaN => true | _ => false end.

Definition notna (a : fl) : bool := negb (isna a).


Definition fneg (a : fl) : fl :=
  match a with
  | Fin x => Fin (- x)
  | PInf => NInf
  | NInf => PInf
  | NaN => NaN
  end.

Definition fabs (a : fl) : fl :=
  match a with
  | Fin x => Fin (Qabs x)
  | PInf | NInf => PInf
  | NaN => NaN
  end.

Definition fadd (a b : fl) : fl :=
  match a, b with
  | NaN, _ | _, NaN => NaN
  | Fin x, Fin y => Fin (x + y)
  | PInf, NInf | NInf, PInf => NaN
  | PInf, _ | _, PInf => PInf
  | NInf, _ | _, NInf => NInf
  end.

Definition fsub (a b : fl) : fl := fadd a (fneg b).

(** An infinity times a rational: the sign of the rational decides. *)
Definition inf_times (pos : bool) (y : Q) : fl :=
  match y ?= 0 with
  | Eq => NaN
  | Gt => if pos then PInf else NInf
  | Lt => if pos then NInf else PInf
  end.

Definition fmul (a b : fl) : fl :=
  match a, b with
  | NaN, _ | _, NaN => NaN
  | Fin x, Fin y => Fin (x * y)
  | PInf, Fin y | Fin y, PInf => inf_times true y
  | NInf, Fin y | Fin y, NInf => inf_times false y
  | PInf, PInf | NInf, NInf => PInf
  | PInf, NInf | NInf, PInf => NInf
  end.

(** Division as numpy does it: no exception, a zero divisor gives an
    infinity with the sign of the numerator, and [0/0] gives [NaN]. *)
Definition fdiv (a b : fl) : fl :=
  match a, b with
  | NaN, _ | _, NaN => NaN
  | Fin x, Fin y =>
      match y ?= 0 with
      | Eq => match x ?= 0 with
              | Eq => NaN
              | Gt => PInf
              | Lt => NInf
              end
      | _ => Fin (x / y)
      end
  | Fin _, PInf | Fin _, NInf => Fin 0
  | PInf, Fin y => match y ?= 0 with Lt => NInf | _ => PInf end
  | NInf, Fin y => match y ?= 0 with Lt => PInf | _ => NInf end
  | _, _ => NaN
  end.

(** [a > b]; every comparison with [NaN] is false. *)
Definition fgt (a b : fl) : bool :=
  match a, b with
  | Fin x, Fin y => match x ?= y with Gt => true | _ => false end
  | PInf, Fin _ | PInf, NInf | Fin _, NInf => true
  | _, _ => false
  end.


Definition of_nat (n : nat) : fl := Fin (inject_Z (Z.of_nat n)).

(** ** Series *)

Definition Series := list fl.

(** [Series.dropna()] *)
Definition dropna (s : Series) : Series := filter notna s.

(** [Series.sum()]: missing entries are skipped, the empty sum is 0. *)
Fixpoint fsum (s : Series) : fl :=
  match s with
  | [] => Fin 0
  | x :: t => if isna x then fsum t else fadd x (fsum t)
  end.

(** A sum that does not skip: one [NaN] makes it [NaN]. *)
Definition fsum_raw (s : Series) : fl := fold_right fadd (Fin 0) s.

(** [Series.mean()]: the mean of the entries that are present. *)
Definition fmean (s : Series) : fl :=
  fdiv (fsum s) (of_nat (length (dropna s))).

(** [Series.max()] over the entries that are present. *)
Definition fmax2 (a b : fl) : fl := if fgt b a then b else a.

Definition smax (s : Series) : fl :=
  match dropna s with
  | [] => NaN
  | x :: t => fold_left fmax2 t x
  end.

Definition smin (s : Series) : fl :=
  match dropna s with
  | [] => NaN
  | x :: t => fold_left (fun a b => if fgt a b then b else a) t x
  end.

(** [Series.diff()]: the first entry has no predecessor. *)
Fixpoint diff_from (prev : fl) (s : Series) : Series :=
  match s with
  | [] => []
  | y :: t => fsub y prev :: diff_from y t
  end.

Definition diff (s : Series) : Series :=
  match s with
  | [] => []
  | x :: t => NaN :: diff_from x t
  end.

(** Number of entries of [s] greater than [m]: [(s > m).sum()]. *)
Definition count_gt (s : Series) (m : fl) : nat :=
  length (filter (fun v => fgt v m) s).

(** ** The metric functions *)

(** [CalcTqmean] *)
Definition CalcTqmean (Qvalues : Series) : fl :=
  let Qvalues := dropna Qvalues in
  let T := length Qvalues in
  fdiv (of_nat (count_gt Qvalues (fmean Qvalues))) (of_nat T).

(** [CalcRBindex] *)
Definition CalcRBindex (Qvalues : Series) : fl :=
  let Qvalues := dropna Qvalues in
  let sfc := diff Qvalues in
  let Qs := fsum (map fabs sfc) in
  let Qt := fsum Qvalues in
  fdiv Qs Qt.

(** A Python value as the functions of the program return it: a float,
    or a method bound to a Series and not called. *)
Inductive pyobj : Type :=
| PyFloat (v : fl)
| PyBoundMethod (name : string) (self : Series).

(** The entries [i-w+1 .. i] of [s] (fewer at the start). *)
Definition window (w i : nat) (s : Series) : Series :=
  skipn (i + 1 - w) (firstn (i + 1) s).

(** Rolling windows take an infinite entry for a missing one. *)
Definition inf_to_nan (v : fl) : fl :=
  match v with
  | PInf | NInf => NaN
  | _ => v
  end.

(** [Series.rolling(window=w).mean()]: an entry is the mean of its
    window when the window holds [w] present finite values, and missing
    otherwise. *)
Definition rolling_mean (w : nat) (s : Series) : Series :=
  let s := map inf_to_nan s in
  map (fun i =>
         let win := window w i s in
         if (length (dropna win) <? w)%nat then NaN else fmean win)
      (seq 0 (length s)).

(** [Calc7Q]: the last line names the method [min] of the rolling means
    and does not call it. *)
Definition Calc7Q (Qvalues : Series) : pyobj :=
  let Qvalues := dropna Qvalues in
  let val7Q := PyBoundMethod "min" (rolling_mean 7 Qvalues) in
  val7Q.

(** Insertion sort of the present values, for the median. *)
Fixpoint insert_sorted (x : fl) (s : Series) : Series :=
  match s with
  | [] => [x]
  | y :: t => if fgt x y then y :: insert_sorted x t else x :: y :: t
  end.

Definition sort_values (s : Series) : Series :=
  fold_right insert_sorted [] s.

(** [Series.median()] over the entries that are present. *)
Definition median (s : Series) : fl :=
  let p := sort_values (dropna s) in
  let n := length p in
  if (n =? 0)%nat then NaN
  else if Nat.odd n then nth (n / 2) p NaN
  else fdiv (fadd (nth (n / 2 - 1) p NaN) (nth (n / 2) p NaN)) (Fin 2).

(** [CalcExceed3TimesMedian] *)
Definition CalcExceed3TimesMedian (Qvalues : Series) : nat :=
  let Qvalues := dropna Qvalues in
  let median3x := count_gt Qvalues (fmul (Fin 3) (median Qvalues)) in
  median3x.

(** Sample variance ([ddof=1]) of the present values; missing below two. *)
Definition fvar (s : Series) : fl :=
  let p := dropna s in
  let n := length p in
  if (n <=? 1)%nat then NaN
  else
    let avg := fmean p in
    fdiv (fsum_raw (map (fun v => let d := fsub avg v in fmul d d) p))
         (of_nat (n - 1)).

(** Mean and central moment of a raw array, nothing skipped. *)
Definition fmean_raw (s : Series) : fl :=
  fdiv (fsum_raw s) (of_nat (length s)).

Fixpoint fpow (a : fl) (k : nat) : fl :=
  match k with
  | O => Fin 1
  | S O => a
  | S k' => fmul a (fpow a k')
  end.

Definition moment (k : nat) (s : Series) : fl :=
  let m := fmean_raw s in
  fmean_raw (map (fun v => fpow (fsub v m) k) s).

(** A square root on the rationals: the integer square root of
    numerator times denominator, over the denominator.  It is exact on
    squares, zero at zero and positive on positive rationals. *)
Definition Qsqrt_floor (q : Q) : Q :=
  Z.sqrt (Qnum q * Zpos (Qden q)) # Qden q.

Section Root.

(** The square root of the numeric library, on rationals. *)
Variable sqrtQ : Q -> Q.

Definition fsqrt (a : fl) : fl :=
  match a with
  | Fin x => match x ?= 0 with Lt => NaN | _ => Fin (sqrtQ x) end
  | PInf => PInf
  | NInf | NaN => NaN
  end.

(** [Series.std()] *)
Definition fstd (s : Series) : fl := fsqrt (fvar s).

(** The coefficient of variation as both aggregators write it:
    [(sd / mean) * 100]. *)
Definition coeff_var (s : Series) : fl :=
  let sd := fstd s in
  fmul (fdiv sd (fmean s)) (Fin 100).

(** [scipy.stats.skew] on the raw values of a group: the biased
    estimate [m3 / m2^1.5]; a missing value in the group makes it
    missing, and so does a second moment of 0 (current versions of
    scipy; older ones answered 0 there). *)
Definition skew (s : Series) : fl :=
  let m2 := moment 2 s in
  let m3 := moment 3 s in
  match m2 with
  | Fin x => if Qeq_bool x 0 then NaN else fdiv m3 (fmul m2 (fsqrt m2))
  | _ => fdiv m3 (fmul m2 (fsqrt m2))
  end.

End Root.

(** ** Dates *)

Record date : Type := mkdate { year : Z; month : Z; day : Z }.

Definition date_compare (a b : date) : comparison :=
  match (year a ?= year b)%Z with
  | Eq => match (month a ?= month b)%Z with
          | Eq => (day a ?= day b)%Z
          | c => c
          end
  | c => c
  end.

Definition date_ltb (a b : date) : bool :=
  match date_compare a b with Lt => true | _ => false end.

Definition date_leb (a b : date) : bool :=
  match date_compare a b with Gt => false | _ => true end.

Definition date_lt (a b : date) : Prop := date_compare a b = Lt.
Definition date_le (a b : date) : Prop := date_compare a b <> Gt.

Definition leap_year (y : Z) : bool :=
  ((y mod 4 =? 0) && negb (y mod 100 =? 0) || (y mod 400 =? 0))%Z.

Definition days_in_month (y m : Z) : Z :=
  (if m =? 2 then (if leap_year y then 29 else 28)
   else if (m =? 4) || (m =? 6) || (m =? 9) || (m =? 11) then 30
   else 31)%Z.

Definition valid_date (d : date) : Prop :=
  (1 <= month d <= 12 /\ 1 <= day d <= days_in_month (year d) (month d))%Z.

(** ** The data frame read from a station file *)

Record Obs : Type := mkObs {
  agency_cd : string;
  site_no : fl;
  Date : date;
  Discharge : fl;
  Quality : string
}.

(** Rows in file order; [Date] is the index. *)
Definition DataFrame := list Obs.

Definition column {A B : Type} (f : A -> B) (df : list A) : list B := map f df.

(** [Series.isna().sum()] *)
Definition isna_sum (s : Series) : nat := length (filter isna s).

(** ** The index in date order *)

(** [DataDF.index.is_monotonic_increasing]: no row is dated before the
    row above it. *)
Fixpoint monotonic_from (prev : date) (l : DataFrame) : bool :=
  match l with
  | [] => true
  | o :: t => date_leb prev (Date o) && monotonic_from (Date o) t
  end.

Definition is_monotonic_increasing (df : DataFrame) : bool :=
  match df with
  | [] => true
  | o :: t => monotonic_from (Date o) t
  end.

(** One row is dated no later than another. *)
Definition obs_le (x y : Obs) : Prop := date_leb (Date x) (Date y) = true.

(** The rows dated in the closed window [[a, b]]. *)
Definition in_window (a b : date) (o : Obs) : bool :=
  date_leb a (Date o) && date_leb (Date o) b.

(** Length of the longest prefix whose entries satisfy [p]: on an
    increasing index, the position a binary search for the bound finds. *)
Fixpoint prefix_len {A : Type} (p : A -> bool) (l : list A) : nat :=
  match l with
  | [] => O
  | x :: t => if p x then S (prefix_len p t) else O
  end.


(** [DataDF.loc[startDate:endDate]] with the bounds given as date
    strings, as the script gives them.
    - On an index in increasing date order pandas searches the two
      positions: from the first row not before [startDate] up to and
      including the last row not after [endDate].
    - On any other index it selects by value: the rows dated in the
      closed window, in the order of the frame. *)
Definition loc_slice (df : DataFrame) (startDate endDate : date) : DataFrame :=
  if is_monotonic_increasing df then
    let lo := prefix_len (fun o => date_ltb (Date o) startDate) df in
    let hi := prefix_len (fun o => date_leb (Date o) endDate) df in
    skipn lo (firstn hi df)
  else filter (in_window startDate endDate) df.


(** [ClipData] *)
Definition ClipData (DataDF : DataFrame) (startDate endDate : date)
  : DataFrame * nat :=
  let DataDF := loc_slice DataDF startDate endDate in
  let MissingValues := isna_sum (column Discharge DataDF) in
  (DataDF, MissingValues).

(** ** Resampling *)

(** The resampler orders the rows by date first; rows of one date keep
    their order. *)
Fixpoint insert_obs (o : Obs) (l : DataFrame) : DataFrame :=
  match l with
  | [] => [o]
  | x :: t =>
      if date_leb (Date o) (Date x) then o :: x :: t
      else x :: insert_obs o t
  end.

Definition sort_index (df : DataFrame) : DataFrame :=
  fold_right insert_obs [] df.

(** The integers [lo, lo+1, .., hi]. *)
Definition Zrange (lo hi : Z) : list Z :=
  map (fun i => (lo + Z.of_nat i)%Z) (seq 0 (Z.to_nat (hi - lo + 1))).

(** The rows of [df] dated in [[a, b)]. *)
Definition rows_between (a b : date) (df : DataFrame) : DataFrame :=
  filter (fun o => date_leb a (Date o) && date_ltb (Date o) b) df.

(** The water year a date falls in, named by the year of its October. *)
Definition water_year (d : date) : Z :=
  if (10 <=? month d)%Z then year d else (year d - 1)%Z.

Definition oct1 (Y : Z) : date := mkdate Y 10 1.

Definition sep30 (Y : Z) : date := mkdate Y 9 30.

(** [DataDF.resample('AS-OCT')]: one bin per year starting October 1,
    from the bin of the earliest row to the bin of the latest row, each
    with its start date as label and the rows dated in it. *)
Definition resample_AS_OCT (df : DataFrame) : list (date * DataFrame) :=
  match sort_index df with
  | [] => []
  | first :: rest =>
      let sorted := first :: rest in
      let final := last rest first in
      map (fun Y => (oct1 Y, rows_between (oct1 Y) (oct1 (Y + 1)) sorted))
          (Zrange (water_year (Date first)) (water_year (Date final)))
  end.

(** Months counted from year 0. *)
Definition month_number (d : date) : Z := (year d * 12 + (month d - 1))%Z.

Definition month_start (k : Z) : date := mkdate (k / 12) (k mod 12 + 1) 1.

Definition month_end (k : Z) : date :=
  mkdate (k / 12) (k mod 12 + 1) (days_in_month (k / 12) (k mod 12 + 1)).

(** [DataDF.resample('M')]: one bin per calendar month from the month of
    the earliest row to the month of the latest row, labelled by the
    last day of the month. *)
Definition resample_M (df : DataFrame) : list (date * DataFrame) :=
  match sort_index df with
  | [] => []
  | first :: rest =>
      let sorted := first :: rest in
      let final := last rest first in
      map (fun k =>
             (month_end k,
              rows_between (month_start k) (month_start (k + 1)) sorted))
          (Zrange (month_number (Date first)) (month_number (Date final)))
  end.

(** ** The annual table *)

Module WY.

Record Row : Type := mkRow {
  index : date;
  site_no : fl;
  Mean_Flow : fl;
  Peak_Flow : fl;
  Median : fl;
  Coeff_Var : fl;
  Skew : fl;
  TQmean : fl;
  RBindex : fl;
  SevenQ : pyobj;
  Median3x : nat
}.

End WY.

(** ** The monthly table and the table of monthly averages *)

Module Mo.

(** The index is a date in the monthly table and a number from 1 to 12
    in the table of averages. *)
Record Row (I : Type) : Type := mkRow {
  index : I;
  site_no : fl;
  Mean_Flow : fl;
  Coeff_Variantion : fl;
  TQmean : fl;
  RBindex : fl
}.

Arguments mkRow {I}.
Arguments index {I}.
Arguments site_no {I}.
Arguments Mean_Flow {I}.
Arguments Coeff_Variantion {I}.
Arguments TQmean {I}.
Arguments RBindex {I}.

(** The cell in column [j] of a row, by position. *)
Definition set_cell {I : Type} (j : nat) (v : fl) (r : Row I) : Row I :=
  match j with
  | 0%nat => mkRow (index r) v (Mean_Flow r) (Coeff_Variantion r)
               (TQmean r) (RBindex r)
  | 1%nat => mkRow (index r) (site_no r) v (Coeff_Variantion r)
               (TQmean r) (RBindex r)
  | 2%nat => mkRow (index r) (site_no r) (Mean_Flow r) v
               (TQmean r) (RBindex r)
  | 3%nat => mkRow (index r) (site_no r) (Mean_Flow r) (Coeff_Variantion r)
               v (RBindex r)
  | 4%nat => mkRow (index r) (site_no r) (Mean_Flow r) (Coeff_Variantion r)
               (TQmean r) v
  | _ => r
  end.

(** [df.iloc[n, j] = v] *)
Fixpoint iloc_set {I : Type} (n j : nat) (v : fl) (df : list (Row I))
  : list (Row I) :=
  match df, n with
  | [], _ => []
  | r :: t, O => set_cell j v r :: t
  | r :: t, S n' => r :: iloc_set n' j v t
  end.

End Mo.

Section Tables.

Variable sqrtQ : Q -> Q.

(** The row of the annual table for one bin: its label and the ten
    columns computed from the rows of the bin. *)
Definition annual_row (label : date) (rows : DataFrame) : WY.Row :=
  let Qv := column Discharge rows in
  WY.mkRow label
    (fmean (column site_no rows))
    (fmean Qv)
    (smax Qv)
    (median Qv)
    (coeff_var sqrtQ Qv)
    (skew sqrtQ Qv)
    (CalcTqmean Qv)
    (CalcRBindex Qv)
    (Calc7Q Qv)
    (CalcExceed3TimesMedian Qv).

(** [GetAnnualStatistics] *)
Definition GetAnnualStatistics (DataDF : DataFrame) : list WY.Row :=
  let wateryear := resample_AS_OCT DataDF in
  map (fun bin => annual_row (fst bin) (snd bin)) wateryear.

(** The row of the monthly table for one bin. *)
Definition monthly_row (label : date) (rows : DataFrame) : Mo.Row date :=
  let Qv := column Discharge rows in
  Mo.mkRow label
    (fmean (column site_no rows))
    (fmean Qv)
    (coeff_var sqrtQ Qv)
    (CalcTqmean Qv)
    (CalcRBindex Qv).

(** [GetMonthlyStatistics] *)
Definition GetMonthlyStatistics (DataDF : DataFrame) : list (Mo.Row date) :=
  let monthly := resample_M DataDF in
  map (fun bin => monthly_row (fst bin) (snd bin)) monthly.

End Tables.

(** [s[m::k]]: the entries at positions [m], [m+k], [m+2k], ...;
    [i] counts the entries still to skip. *)
Fixpoint every_kth {A : Type} (k i : nat) (l : list A) : list A :=
  match l with
  | [] => []
  | x :: t =>
      match i with
      | O => x :: every_kth k (k - 1) t
      | S i' => every_kth k i' t
      end
  end.

Definition step_slice {A : Type} (m k : nat) (l : list A) : list A :=
  every_kth k m l.

(** The pairs (row of the result, first row of the input) of
    [GetMonthlyAverages]. *)
Definition index_pairs : list (nat * nat) :=
  [(0,3);(1,4);(2,5);(3,6);(4,7);(5,8);(6,9);(7,10);(8,11);(9,0);(10,1);(11,2)]%nat.

(** [GetMonthlyAverages]: a table of zeros with index 1..12, filled cell
    by cell by the five loops. *)
Definition GetMonthlyAverages (MoDataDF : list (Mo.Row date))
  : list (Mo.Row Z) :=
  let zero := Fin 0 in
  let MonthlyAverages :=
    map (fun i => Mo.mkRow (Z.of_nat i) zero zero zero zero zero) (seq 1 12) in
  let MonthlyAverages :=
    fold_left (fun MA n =>
                 Mo.iloc_set n 0
                   (fmean (step_slice 0 12 (column Mo.site_no MoDataDF))) MA)
              (seq 0 12) MonthlyAverages in
  let MonthlyAverages :=
    fold_left (fun MA nm =>
                 Mo.iloc_set (fst nm) 1
                   (fmean (step_slice (snd nm) 12 (column Mo.Mean_Flow MoDataDF))) MA)
              index_pairs MonthlyAverages in
  let MonthlyAverages :=
    fold_left (fun MA nm =>
                 Mo.iloc_set (fst nm) 2
                   (fmean (step_slice (snd nm) 12
                             (column Mo.Coeff_Variantion MoDataDF))) MA)
              index_pairs MonthlyAverages in
  let MonthlyAverages :=
    fold_left (fun MA nm =>
                 Mo.iloc_set (fst nm) 3
                   (fmean (step_slice (snd nm) 12 (column Mo.TQmean MoDataDF))) MA)
              index_pairs MonthlyAverages in
  let MonthlyAverages :=
    fold_left (fun MA nm =>
                 Mo.iloc_set (fst nm) 4
                   (fmean (step_slice (snd nm) 12 (column Mo.RBindex MoDataDF))) MA)
              index_pairs MonthlyAverages in
  MonthlyAverages.

(** ** The intended seven-day low flow *)

(** The value the documentation of [Calc7Q] describes: the least of the
    rolling seven-day means of the present values, missing when there is
    none.  [Calc7Q] is compared with it. *)
Definition Calc7Q_documented (Qvalues : Series) : fl :=
  smin (rolling_mean 7 (dropna Qvalues)).

(** ** Statements about the monthly averages *)

Definition date_eqb (a b : date) : bool :=
  match date_compare a b with Eq => true | _ => false end.

(** The rows of a monthly table are labelled month by month from month
    number [k] on, as [resample('M')] labels them. *)
Fixpoint month_labels_from (k : Z) (tbl : list (Mo.Row date)) : bool :=
  match tbl with
  | [] => true
  | r :: t => date_eqb (Mo.index r) (month_end k) && month_labels_from (k + 1) t
  end.

(** The month number of October of year [Y]. *)
Definition october (Y : Z) : Z := (Y * 12 + 9)%Z.

(** The mean of a column over the rows of one calendar month, all years
    together. *)
Definition calendar_month_mean (col : Mo.Row date -> fl) (mth : Z)
  (tbl : list (Mo.Row date)) : fl :=
  fmean (column col (filter (fun r => (month (Mo.index r) =? mth)%Z) tbl)).

Definition calendar_order : list Z := [1; 2; 3; 4; 5; 6; 7; 8; 9; 10; 11; 12]%Z.

Definition water_year_order : list Z :=
  [10; 11; 12; 1; 2; 3; 4; 5; 6; 7; 8; 9]%Z.

(** A monthly table of two water years from October 1969 whose mean flow
    in row [i] is [i]. *)
Definition two_years_table : list (Mo.Row date) :=
  map (fun i => Mo.mkRow (month_end (october 1969 + Z.of_nat i))
                  (Fin 3335000) (of_nat i) (Fin 0) (Fin 0) (Fin 0))
      (seq 0 24).

(** ** Buckets of readings and the documented metrics *)

(** [c * Qvalues]: every entry times the scalar [c]. *)
Definition scale (c : Q) (s : Series) : Series := map (fmul (Fin c)) s.

(** A bucket of daily readings, each a rational or missing, and the
    Series that holds it. *)
Definition of_reading (r : option Q) : fl :=
  match r with
  | Some q => Fin q
  | None => NaN
  end.

Definition of_readings (b : list (option Q)) : Series := map of_reading b.

(** The readings that are present, in date order. *)
Fixpoint present_values (b : list (option Q)) : list Q :=
  match b with
  | [] => []
  | Some q :: t => q :: present_values t
  | None :: t => present_values t
  end.

Definition total (p : list Q) : Q := fold_right Qplus 0 p.

Definition Qgt_bool (a b : Q) : bool :=
  match a ?= b with Gt => true | _ => false end.

(** The R-B Index of a sequence without gaps, as the documentation words
    it: the sum of the absolute changes from one value to the next, over
    the sum of the values. *)
Fixpoint pathlength_from (prev : Q) (p : list Q) : Q :=
  match p with
  | [] => 0
  | y :: t => Qabs (y - prev) + pathlength_from y t
  end.

Definition pathlength (p : list Q) : Q :=
  match p with
  | [] => 0
  | x :: t => pathlength_from x t
  end.

Definition RBindex_documented (p : list Q) : fl :=
  fdiv (Fin (pathlength p)) (Fin (total p)).

(** ** The full date range of a frame *)



(** ** Sorting rationals *)

(** [insert_sorted] and [sort_values] on values without gaps. *)
Fixpoint qinsert (x : Q) (s : list Q) : list Q :=
  match s with
  | [] => [x]
  | y :: t => if Qgt_bool x y then y :: qinsert x t else x :: y :: t
  end.

Definition qsort (s : list Q) : list Q := fold_right qinsert [] s.

(** ** The metric functions in IEEE doubles *)

Module IEEE.

Import PrimFloat.
Local Open Scope float_scope.

(** A float column: binary64 values, a missing entry being a NaN. *)
Definition Series := list float.

(** [Series.dropna()] *)
Definition dropna (s : Series) : Series :=
  filter (fun x => negb (is_nan x)) s.

(** A count as a double; exact below 2^53. *)
Fixpoint float_of_nat (n : nat) : float :=
  match n with
  | O => 0
  | S k => float_of_nat k + 1
  end.

(** The sum of an array from left to right, starting from 0: the order
    in which numpy adds fewer than eight values. *)
Definition seq_sum (a : list float) : float := fold_left add a 0.

(** [c * Qvalues] *)
Definition scale (c : float) (s : Series) : Series := map (mul c) s.

(** [Series.diff()] *)
Fixpoint diff_from (prev : float) (s : Series) : Series :=
  match s with
  | [] => []
  | y :: t => (y - prev) :: diff_from y t
  end.

Definition diff (s : Series) : Series :=
  match s with
  | [] => []
  | x :: t => nan :: diff_from x t
  end.

Section Sum.

(** The sum of an array of doubles as the numeric library computes it;
    the order of the additions is the library's. *)
Variable array_sum : list float -> float.

(** [Series.sum()]: a missing entry counts as 0. *)
Definition nansum (s : Series) : float :=
  array_sum (map (fun x => if is_nan x then 0 else x) s).

(** [Series.mean()]: the sum over the number of present entries, both
    doubles. *)
Definition mean (s : Series) : float :=
  nansum s / float_of_nat (length (dropna s)).

(** [CalcTqmean].  The count and the length are integers; their
    quotient is held as the exact rational, which the code rounds to
    the nearest double. *)
Definition CalcTqmean (Qvalues : Series) : fl :=
  let Qvalues := dropna Qvalues in
  let T := length Qvalues in
  let above := filter (fun v => mean Qvalues <? v) Qvalues in
  fdiv (of_nat (length above)) (of_nat T).

(** [CalcRBindex] *)
Definition CalcRBindex (Qvalues : Series) : float :=
  let Qvalues := dropna Qvalues in
  let sfc := diff Qvalues in
  let Qs := nansum (map abs sfc) in
  let Qt := nansum Qvalues in
  Qs / Qt.

End Sum.

(** The buckets the statements are checked on. *)
Definition tenth : float := 1 / 10.

Definition six_tenths : Series := [tenth; tenth; tenth; tenth; tenth; tenth].




Definition three_fives : Series := [5; nan; 5; 5].


End IEEE.

(** * Properties *)

(** ** Arithmetic of the extended rationals *)

Ltac qcases :=
  repeat match goal with
    | |- context [Qcompare ?a ?b] =>
        let H := fresh "Hc" in
        destruct (Qcompare a b) eqn:H;
        [ rewrite <- Qeq_alt in H
        | rewrite <- Qlt_alt in H
        | rewrite <- Qgt_alt in H ]
    end.

Lemma feq_refl (a : fl) : a =f= a.
Proof. destruct a; simpl; auto. reflexivity. Qed.

Lemma feq_sym (a b : fl) : a =f= b -> b =f= a.
Proof. destruct a, b; simpl; auto. intros H; symmetry; exact H. Qed.

Lemma feq_trans (a b c : fl) : a =f= b -> b =f= c -> a =f= c.
Proof.
  destruct a, b, c; simpl; auto; try contradiction.
  intros H1 H2; rewrite H1; exact H2.
Qed.

#[export] Instance feq_Equivalence : Equivalence feq.
Proof.
  split.
  - exact feq_refl.
  - exact feq_sym.
  - exact feq_trans.
Qed.

Lemma feq_of_eq (a b : fl) : a = b -> a =f= b.
Proof. intros ->; reflexivity. Qed.

#[export] Instance fadd_Proper : Proper (feq ==> feq ==> feq) fadd.
Proof.
  intros a a' Ha b b' Hb.
  destruct a, a'; cbn [feq] in Ha; try contradiction;
    destruct b, b'; cbn [feq] in Hb; try contradiction; simpl; auto.
  rewrite Ha, Hb; reflexivity.
Qed.

#[export] Instance fneg_Proper : Proper (feq ==> feq) fneg.
Proof.
  intros a a' Ha.
  destruct a, a'; cbn [feq] in Ha; try contradiction; simpl; auto.
  rewrite Ha; reflexivity.
Qed.

#[export] Instance fsub_Proper : Proper (feq ==> feq ==> feq) fsub.
Proof. intros a a' Ha b b' Hb. unfold fsub. rewrite Ha, Hb. reflexivity. Qed.

#[export] Instance fabs_Proper : Proper (feq ==> feq) fabs.
Proof.
  intros a a' Ha.
  destruct a, a'; cbn [feq] in Ha; try contradiction; simpl; auto.
  rewrite Ha; reflexivity.
Qed.

#[export] Instance fdiv_Proper : Proper (feq ==> feq ==> feq) fdiv.
Proof.
  intros a a' Ha b b' Hb.
  destruct a, a'; cbn [feq] in Ha; try contradiction;
    destruct b, b'; cbn [feq] in Hb; try contradiction; cbn [fdiv feq]; auto;
    qcases; cbn [feq]; auto; try lra; try reflexivity.
  all: rewrite Ha, Hb; reflexivity.
Qed.

#[export] Instance fmul_Proper : Proper (feq ==> feq ==> feq) fmul.
Proof.
  intros a a' Ha b b' Hb.
  destruct a, a'; cbn [feq] in Ha; try contradiction;
    destruct b, b'; cbn [feq] in Hb; try contradiction; simpl; auto;
    unfold inf_times; qcases; simpl; auto; try lra.
  rewrite Ha, Hb; reflexivity.
Qed.

#[export] Instance fgt_Proper : Proper (feq ==> feq ==> eq) fgt.
Proof.
  intros a a' Ha b b' Hb.
  destruct a, a'; cbn [feq] in Ha; try contradiction;
    destruct b, b'; cbn [feq] in Hb; try contradiction; simpl; auto.
  qcases; auto; lra.
Qed.


Lemma of_nat_pos (n : nat) : (0 < n)%nat -> 0 < inject_Z (Z.of_nat n).
Proof.
  intros H. unfold Qlt; simpl. lia.
Qed.

Lemma fdiv_fin (x y : Q) : ~ y == 0 -> fdiv (Fin x) (Fin y) = Fin (x / y).
Proof.
  intros H. cbn [fdiv].
  destruct (y ?= 0) eqn:E; auto.
  rewrite <- Qeq_alt in E. contradiction.
Qed.

(** ** Series *)

Lemma dropna_notna (s : Series) : Forall (fun v => isna v = false) (dropna s).
Proof.
  unfold dropna. apply Forall_forall. intros v Hv.
  apply filter_In in Hv. destruct Hv as [_ Hv].
  unfold notna in Hv. now apply negb_true_iff in Hv.
Qed.

Lemma dropna_id (s : Series) :
  Forall (fun v => isna v = false) s -> dropna s = s.
Proof.
  induction 1 as [|x t Hx Ht IH]; simpl; auto.
  unfold notna. rewrite Hx. simpl. f_equal. exact IH.
Qed.

Lemma dropna_idem (s : Series) : dropna (dropna s) = dropna s.
Proof. apply dropna_id, dropna_notna. Qed.

Lemma fsum_dropna (s : Series) : fsum (dropna s) = fsum s.
Proof.
  induction s as [|x t IH]; simpl; auto.
  unfold notna. destruct (isna x) eqn:E; simpl; auto.
  rewrite E, IH. reflexivity.
Qed.

Lemma fmean_dropna (s : Series) : fmean (dropna s) = fmean s.
Proof. unfold fmean. rewrite fsum_dropna, dropna_idem. reflexivity. Qed.

(** ** Tqmean *)

Lemma ratio_in_unit (k n : nat) :
  (k <= n)%nat -> (0 < n)%nat ->
  0 <= inject_Z (Z.of_nat k) / inject_Z (Z.of_nat n) <= 1.
Proof.
  intros Hk Hn.
  assert (Hpos : 0 < inject_Z (Z.of_nat n)) by now apply of_nat_pos.
  assert (Hk0 : 0 <= inject_Z (Z.of_nat k)) by (unfold Qle; simpl; lia).
  assert (Hkn : inject_Z (Z.of_nat k) <= inject_Z (Z.of_nat n))
    by (unfold Qle; simpl; lia).
  split.
  - apply Qle_shift_div_l; [exact Hpos | lra].
  - apply Qle_shift_div_r; [exact Hpos | lra].
Qed.

Lemma length_pos_of_ne {A : Type} (l : list A) : l <> [] -> (0 < length l)%nat.
Proof. destruct l; [congruence | simpl; lia]. Qed.

Lemma CalcTqmean_unfold (Qvalues : Series) :
  dropna Qvalues <> [] ->
  CalcTqmean Qvalues =
    Fin (inject_Z (Z.of_nat (count_gt (dropna Qvalues) (fmean (dropna Qvalues))))
         / inject_Z (Z.of_nat (length (dropna Qvalues)))).
Proof.
  intros Hne. unfold CalcTqmean, of_nat.
  apply fdiv_fin.
  pose proof (of_nat_pos _ (length_pos_of_ne _ Hne)). lra.
Qed.

Lemma count_gt_map_Fin (qs : list Q) (m : fl) (mq : Q) :
  m =f= Fin mq ->
  count_gt (map Fin qs) m = length (filter (fun q => Qgt_bool q mq) qs).
Proof.
  intros Hm. unfold count_gt.
  induction qs as [|q t IH]; [reflexivity|].
  cbn [map filter].
  rewrite (fgt_Proper (Fin q) (Fin q) (feq_refl _) m (Fin mq) Hm).
  change (fgt (Fin q) (Fin mq)) with (Qgt_bool q mq).
  destruct (Qgt_bool q mq); cbn [length]; now rewrite IH.
Qed.

Lemma fsum_map_Fin (p : list Q) : fsum (map Fin p) =f= Fin (total p).
Proof.
  induction p as [|x t IH]; [reflexivity|].
  cbn [map fsum isna total fold_right]. rewrite IH. reflexivity.
Qed.

Lemma dropna_map_Fin (qs : list Q) : dropna (map Fin qs) = map Fin qs.
Proof. induction qs as [|q t IH]; simpl; [reflexivity | now f_equal]. Qed.

Lemma dropna_of_readings (b : list (option Q)) :
  dropna (of_readings b) = map Fin (present_values b).
Proof.
  induction b as [|[q|] t IH]; simpl; auto.
  f_equal. exact IH.
Qed.

Lemma filter_none {A : Type} (f : A -> bool) (l : list A) :
  (forall x, In x l -> f x = false) -> filter f l = [].
Proof.
  induction l as [|x t IH]; intros H; simpl; auto.
  rewrite (H x (or_introl eq_refl)). apply IH.
  intros y Hy. apply H. now right.
Qed.

(** ** R-B Index *)

Lemma CalcRBindex_unfold (Qvalues : Series) :
  CalcRBindex Qvalues =
    fdiv (fsum (map fabs (diff (dropna Qvalues)))) (fsum (dropna Qvalues)).
Proof. reflexivity. Qed.

(** C9.  On a bucket with exactly one present value [v], [v] not 0,
    [CalcRBindex] is 0: the only entry of the differences is missing,
    the sum of absolute differences skips it and is 0, and the result
    is [0 / v]. *)
Theorem CalcRBindex_single (Qvalues : Series) (v : fl)
  (H1 : dropna Qvalues = [v]) (Hv : ~ v =f= Fin 0) :
  diff (dropna Qvalues) = [NaN]
  /\ fsum (map fabs (diff (dropna Qvalues))) = Fin 0
  /\ CalcRBindex Qvalues =f= Fin 0.
Proof.
  rewrite CalcRBindex_unfold, H1. cbn [diff diff_from map fabs fsum isna].
  split; [reflexivity|]. split; [reflexivity|].
  pose proof (dropna_notna Qvalues) as Hp. rewrite H1 in Hp.
  inversion Hp as [|? ? Hna _]; subst.
  rewrite Hna.
  destruct v as [q| | |]; try discriminate; cbn [fadd fdiv feq] in *;
    try reflexivity.
  destruct (q + 0 ?= 0) eqn:E.
  - rewrite <- Qeq_alt in E. exfalso. apply Hv. lra.
  - cbn [feq]. rewrite <- Qlt_alt in E. field. lra.
  - cbn [feq]. rewrite <- Qgt_alt in E. field. lra.
Qed.

Lemma CalcRBindex_single_witness :
  CalcRBindex [NaN; Fin 5; NaN] =f= Fin 0.
Proof.
  refine (proj2 (proj2 (CalcRBindex_single [NaN; Fin 5; NaN] (Fin 5) _ _))).
  - reflexivity.
  - vm_compute. discriminate.
Defined.

(** Scaling by a positive rational commutes with every step. *)
Section Scaling.

Variable c : Q.
Hypothesis c_pos : 0 < c.









End Scaling.




Lemma absdiff_from_map_Fin (prev : Q) (p : list Q) :
  fsum (map fabs (diff_from (Fin prev) (map Fin p)))
  =f= Fin (pathlength_from prev p).
Proof.
  revert prev. induction p as [|y t IH]; intros prev; [reflexivity|].
  cbn [map diff_from fsum pathlength_from].
  change (fabs (fsub (Fin y) (Fin prev))) with (Fin (Qabs (y - prev))).
  cbn [isna]. rewrite IH. reflexivity.
Qed.

(** C8.  On a bucket of readings with gaps, [CalcRBindex] is the R-B
    Index of the present readings taken in date order with the gaps
    closed: the differences are those between one present reading and
    the next present reading.  It is the same as on the bucket with the
    missing entries removed. *)
Theorem CalcRBindex_drop_then_diff (b : list (option Q)) :
  CalcRBindex (of_readings b) =f= RBindex_documented (present_values b)
  /\ CalcRBindex (of_readings b)
     = CalcRBindex (of_readings (map Some (present_values b))).
Proof.
  split.
  - rewrite CalcRBindex_unfold, dropna_of_readings.
    unfold RBindex_documented.
    rewrite fsum_map_Fin.
    destruct (present_values b) as [|x t].
    + reflexivity.
    + cbn [map diff fabs fsum isna pathlength].
      rewrite absdiff_from_map_Fin. reflexivity.
  - rewrite !CalcRBindex_unfold, !dropna_of_readings.
    replace (present_values (map Some (present_values b)))
      with (present_values b); [reflexivity|].
    induction (present_values b) as [|x t IH]; simpl; congruence.
Qed.

(** ** Seven-day low flow *)

(** C1.  [Calc7Q] does not return the least rolling seven-day mean: on
    every bucket it returns the method [min] of the rolling means,
    never a number.  On the week 1, 2, .., 7 the documented value is 4
    and the function returns the method bound to the rolling means. *)
Theorem Calc7Q_returns_unevaluated_min (Qvalues : Series) :
  Calc7Q Qvalues = PyBoundMethod "min" (rolling_mean 7 (dropna Qvalues))
  /\ Calc7Q Qvalues <> PyFloat (Calc7Q_documented Qvalues)
  /\ Calc7Q_documented [Fin 1; Fin 2; Fin 3; Fin 4; Fin 5; Fin 6; Fin 7]
     =f= Fin 4
  /\ Calc7Q [Fin 1; Fin 2; Fin 3; Fin 4; Fin 5; Fin 6; Fin 7]
     = PyBoundMethod "min" [NaN; NaN; NaN; NaN; NaN; NaN; Fin (28 # 7)]
  /\ Calc7Q_documented [Fin 1; Fin 2; Fin 3] = NaN.
Proof.
  split; [reflexivity|]. split; [discriminate|].
  split; [vm_compute; reflexivity|].
  split; reflexivity.
Qed.

(** ** Division by zero in the ratio metrics *)

Lemma Qsqrt_floor_zero (q : Q) : q == 0 -> Qsqrt_floor q == 0.
Proof.
  intros H. unfold Qeq in H. simpl in H.
  assert (Hn : Qnum q = 0%Z) by lia.
  unfold Qsqrt_floor. rewrite Hn. simpl. reflexivity.
Qed.



Lemma fsum_raw_map_Fin (l : list Q) : fsum_raw (map Fin l) = Fin (total l).
Proof.
  induction l as [|x t IH]; [reflexivity|].
  unfold fsum_raw in *. cbn [map fold_right total]. rewrite IH. reflexivity.
Qed.



Lemma total_nonneg (p : list Q) :
  Forall (fun q => 0 <= q) p -> 0 <= total p.
Proof.
  induction 1 as [|x t Hx Ht IH]; cbn [total fold_right]; [lra|].
  fold (total t). lra.
Qed.






Lemma CalcRBindex_finite (s : Series) (qs : list Q) :
  dropna s = map Fin qs ->
  exists x y, x == pathlength qs /\ y == total qs
              /\ CalcRBindex s = fdiv (Fin x) (Fin y).
Proof.
  intros Hp. rewrite CalcRBindex_unfold, Hp.
  pose proof (fsum_map_Fin qs) as Ht.
  destruct (fsum (map Fin qs)) as [y| | |]; cbn [feq] in Ht; try contradiction.
  destruct qs as [|q t].
  - exists 0, y. repeat split; auto.
  - cbn [map diff fabs fsum isna].
    pose proof (absdiff_from_map_Fin q t) as Hs.
    destruct (fsum (map fabs (diff_from (Fin q) (map Fin t)))) as [x| | |];
      cbn [feq] in Hs; try contradiction.
    exists x, y. repeat split; auto.
Qed.


Lemma total_all_zero (p : list Q) :
  Forall (fun q => q == 0) p -> total p == 0.
Proof.
  induction 1 as [|x t Hx Ht IH]; cbn [total fold_right]; [reflexivity|].
  fold (total t). lra.
Qed.

Lemma fvar_finite (s : Series) (qs : list Q) (m : Q) :
  dropna s = map Fin qs -> fmean s = Fin m -> (2 <= length qs)%nat ->
  exists x, fvar s = Fin x /\ 0 <= x
            /\ (Forall (fun q => q == m) qs -> x == 0).
Proof.
  intros Hp Hm Hlen.
  set (sq := map (fun q => (m + - q) * (m + - q)) qs).
  assert (Hpos : 0 < inject_Z (Z.of_nat (length qs - 1)))
    by (apply of_nat_pos; lia).
  exists (total sq / inject_Z (Z.of_nat (length qs - 1))).
  split; [|split].
  - unfold fvar. rewrite Hp, length_map.
    destruct (length qs <=? 1)%nat eqn:E; [apply Nat.leb_le in E; lia|].
    rewrite <- Hp, fmean_dropna, Hm, Hp, map_map.
    replace (map (fun x => fmul (fsub (Fin m) (Fin x)) (fsub (Fin m) (Fin x))) qs)
      with (map Fin sq) by (unfold sq; rewrite map_map; reflexivity).
    rewrite fsum_raw_map_Fin. unfold of_nat. apply fdiv_fin. lra.
  - apply Qle_shift_div_l; [exact Hpos|].
    assert (0 <= total sq).
    { apply total_nonneg. unfold sq. apply Forall_forall. intros y Hy.
      apply in_map_iff in Hy. destruct Hy as (q & <- & _).
      cbn beta. generalize (m + - q). intros a. nra. }
    lra.
  - intros Hall.
    assert (Hz : total sq == 0).
    { apply total_all_zero. unfold sq. apply Forall_forall. intros y Hy.
      apply in_map_iff in Hy. destruct Hy as (q & <- & Hq).
      rewrite Forall_forall in Hall. rewrite (Hall q Hq). ring. }
    rewrite Hz. field. lra.
Qed.




(** ** The order of dates *)

Ltac date_cases :=
  unfold date_le, date_lt, date_leb, date_ltb, date_compare;
  cbn [year month day];
  repeat match goal with
    | |- context [Z.compare ?x ?y] => destruct (Z.compare_spec x y)
    end;
  intros; subst; try discriminate; try congruence; try lia.

Lemma date_leb_refl (a : date) : date_leb a a = true.
Proof. destruct a as [y m d]. date_cases. Qed.

Lemma date_leb_trans (a b c : date) :
  date_leb a b = true -> date_leb b c = true -> date_leb a c = true.
Proof.
  destruct a as [y1 m1 d1], b as [y2 m2 d2], c as [y3 m3 d3].
  date_cases.
Qed.

Lemma date_ltb_leb (a b : date) : date_ltb a b = negb (date_leb b a).
Proof.
  destruct a as [y1 m1 d1], b as [y2 m2 d2].
  date_cases.
Qed.

Lemma date_leb_total (a b : date) :
  date_leb a b = false -> date_leb b a = true.
Proof.
  destruct a as [y1 m1 d1], b as [y2 m2 d2].
  date_cases.
Qed.

Lemma date_leb_antisym (a b : date) :
  date_leb a b = true -> date_leb b a = true -> a = b.
Proof.
  destruct a as [y1 m1 d1], b as [y2 m2 d2].
  date_cases.
Qed.

Lemma date_leb_le (a b : date) : date_leb a b = true <-> date_le a b.
Proof.
  unfold date_leb, date_le. destruct (date_compare a b); split;
    congruence.
Qed.

Lemma date_ltb_lt (a b : date) : date_ltb a b = true <-> date_lt a b.
Proof.
  unfold date_ltb, date_lt. destruct (date_compare a b); split;
    congruence.
Qed.

Lemma obs_le_trans : Relations_1.Transitive obs_le.
Proof. intros x y z. unfold obs_le. apply date_leb_trans. Qed.

Lemma monotonic_from_Sorted (prev : Obs) (l : DataFrame) :
  monotonic_from (Date prev) l = true -> Sorted obs_le (prev :: l).
Proof.
  revert prev. induction l as [|o t IH]; intros prev H.
  - repeat constructor.
  - cbn [monotonic_from] in H. apply andb_true_iff in H. destruct H as [H1 H2].
    constructor; [now apply IH | constructor; exact H1].
Qed.

Lemma monotonic_StronglySorted (df : DataFrame) :
  is_monotonic_increasing df = true -> StronglySorted obs_le df.
Proof.
  destruct df as [|o t]; intros H; [constructor|].
  apply Sorted_StronglySorted; [exact obs_le_trans|].
  now apply monotonic_from_Sorted.
Qed.

Lemma last_cons {A : Type} (x d : A) (t : list A) :
  last (x :: t) d = last t x.
Proof.
  revert x d. induction t as [|y t' IH]; intros x d; [reflexivity|].
  change (last (x :: y :: t') d) with (last (y :: t') d).
  rewrite IH. symmetry. apply IH.
Qed.

Lemma last_In {A : Type} (x : A) (t : list A) : In (last t x) (x :: t).
Proof.
  revert x. induction t as [|y t' IH]; intros x; [now left|].
  rewrite last_cons. right. apply IH.
Qed.

Lemma StronglySorted_bounds (first : Obs) (rest : DataFrame) :
  StronglySorted obs_le (first :: rest) ->
  forall o, In o (first :: rest) ->
            obs_le first o /\ obs_le o (last rest first).
Proof.
  revert first. induction rest as [|x t IH]; intros first HS o Ho.
  - destruct Ho as [Ho|[]]. subst o. split; apply date_leb_refl.
  - apply StronglySorted_inv in HS. destruct HS as [HSt Hall].
    rewrite Forall_forall in Hall.
    rewrite last_cons.
    destruct Ho as [Ho|Ho].
    + subst o. split; [apply date_leb_refl|].
      destruct (IH x HSt x (or_introl eq_refl)) as [_ Hlast].
      eapply obs_le_trans; [apply Hall; now left | exact Hlast].
    + split; [now apply Hall|].
      now destruct (IH x HSt o Ho) as [_ Hlast].
Qed.

(** ** Clipping *)

Lemma filter_all {A : Type} (f : A -> bool) (l : list A) :
  (forall x, In x l -> f x = true) -> filter f l = l.
Proof.
  induction l as [|x t IH]; intros H; simpl; auto.
  rewrite (H x (or_introl eq_refl)). f_equal. apply IH.
  intros y Hy. apply H. now right.
Qed.

Lemma filter_filter {A : Type} (f g : A -> bool) (l : list A) :
  filter f (filter g l) = filter (fun x => f x && g x) l.
Proof.
  induction l as [|x t IH]; simpl; auto.
  destruct (g x); simpl; rewrite ?andb_true_r, ?andb_false_r.
  - destruct (f x); now rewrite IH.
  - exact IH.
Qed.

Lemma In_firstn {A : Type} (k : nat) (l : list A) (x : A) :
  In x (firstn k l) -> In x l.
Proof.
  intros H. rewrite <- (firstn_skipn k l). apply in_or_app. now left.
Qed.

(** On rows in date order the rows not after [b] are a prefix. *)
Lemma firstn_prefix_not_after (b : date) (df : DataFrame) :
  StronglySorted obs_le df ->
  firstn (prefix_len (fun o => date_leb (Date o) b) df) df
  = filter (fun o => date_leb (Date o) b) df.
Proof.
  induction 1 as [|x t HS IH Hall]; [reflexivity|].
  cbn [prefix_len filter].
  destruct (date_leb (Date x) b) eqn:E.
  - cbn [firstn]. now rewrite IH.
  - cbn [firstn]. symmetry. apply filter_none.
    intros y Hy. rewrite Forall_forall in Hall. specialize (Hall y Hy).
    destruct (date_leb (Date y) b) eqn:Ey; [|reflexivity].
    rewrite (date_leb_trans _ _ _ Hall Ey) in E. discriminate.
Qed.

(** On rows in date order the rows before [a] are a prefix, also of
    every prefix of the rows. *)
Lemma skipn_prefix_before (a : date) (df : DataFrame) (k : nat) :
  StronglySorted obs_le df ->
  skipn (prefix_len (fun o => date_ltb (Date o) a) df) (firstn k df)
  = filter (fun o => date_leb a (Date o)) (firstn k df).
Proof.
  intros HS. revert k.
  induction HS as [|x t HS IH Hall]; intros k.
  - destruct k; reflexivity.
  - destruct k as [|k]; [cbn [firstn]; now rewrite skipn_nil|].
    cbn [prefix_len firstn filter].
    rewrite date_ltb_leb.
    destruct (date_leb a (Date x)) eqn:E; cbn [negb skipn].
    + f_equal. symmetry. apply filter_all.
      intros y Hy. apply (date_leb_trans _ _ _ E).
      rewrite Forall_forall in Hall. apply Hall.
      apply (In_firstn k). exact Hy.
    + apply IH.
Qed.

(** On an index in date order [loc] keeps the rows of the closed window. *)
Lemma loc_slice_window (df : DataFrame) (a b : date) :
  is_monotonic_increasing df = true ->
  loc_slice df a b = filter (in_window a b) df.
Proof.
  intros Hm. unfold loc_slice. rewrite Hm.
  apply monotonic_StronglySorted in Hm.
  rewrite (skipn_prefix_before a df _ Hm).
  rewrite (firstn_prefix_not_after b df Hm).
  apply filter_filter.
Qed.









(** ** Water years *)

Lemma september_has_30 (d : date) :
  valid_date d -> month d = 9%Z -> (day d <= 30)%Z.
Proof.
  intros [_ Hd] Hm. rewrite Hm in Hd. unfold days_in_month in Hd.
  simpl in Hd. lia.
Qed.

(** A calendar date is before October 1 exactly when it is not after
    September 30. *)
Lemma before_oct1 (d : date) (Y : Z) :
  valid_date d -> date_ltb d (oct1 Y) = date_leb d (sep30 Y).
Proof.
  intros Hv. pose proof (september_has_30 d Hv) as H30.
  destruct Hv as [Hm Hd]. revert Hm Hd H30.
  destruct d as [y m dd]. unfold oct1, sep30.
  date_cases.
Qed.

(** The bin of October 1 of year [Y] holds the dates of water year [Y]. *)
Lemma water_year_bin (d : date) (Y : Z) :
  valid_date d ->
  date_leb (oct1 Y) d && date_ltb d (oct1 (Y + 1)) = (water_year d =? Y)%Z.
Proof.
  intros [Hm Hd]. revert Hm Hd.
  destruct d as [y m dd]. unfold oct1, water_year. cbn [year month day].
  destruct (Z.leb_spec 10 m); destruct (Z.eqb_spec (if true then y else y) Y);
    try destruct (Z.eqb_spec y Y); try destruct (Z.eqb_spec (y - 1) Y);
    date_cases.
Qed.

Lemma water_year_mono (a b : date) :
  date_leb a b = true -> (water_year a <= water_year b)%Z.
Proof.
  destruct a as [y1 m1 d1], b as [y2 m2 d2]. unfold water_year.
  cbn [year month day].
  destruct (Z.leb_spec 10 m1); destruct (Z.leb_spec 10 m2); date_cases.
Qed.

Lemma oct1_lt (Y Y' : Z) : (Y < Y')%Z -> date_lt (oct1 Y) (oct1 Y').
Proof. unfold oct1. date_cases. Qed.

(** ** The sorted index *)

Lemma insert_obs_In (o x : Obs) (l : DataFrame) :
  In x (insert_obs o l) <-> x = o \/ In x l.
Proof.
  induction l as [|y t IH]; simpl.
  - intuition.
  - destruct (date_leb (Date o) (Date y)); simpl; [intuition|].
    rewrite IH. intuition.
Qed.

Lemma sort_index_In (x : Obs) (df : DataFrame) :
  In x (sort_index df) <-> In x df.
Proof.
  induction df as [|o t IH]; simpl; [tauto|].
  rewrite insert_obs_In, IH. intuition.
Qed.

Lemma insert_obs_length (o : Obs) (l : DataFrame) :
  length (insert_obs o l) = S (length l).
Proof.
  induction l as [|y t IH]; simpl; auto.
  destruct (date_leb (Date o) (Date y)); simpl; auto.
Qed.

Lemma insert_obs_sorted (o : Obs) (l : DataFrame) :
  StronglySorted obs_le l -> StronglySorted obs_le (insert_obs o l).
Proof.
  induction 1 as [|y t HS IH Hall]; simpl.
  - repeat constructor.
  - destruct (date_leb (Date o) (Date y)) eqn:E.
    + constructor; [now constructor|].
      constructor; [exact E|].
      eapply Forall_impl; [|exact Hall].
      intros a Ha. exact (date_leb_trans _ _ _ E Ha).
    + constructor; [exact IH|].
      apply Forall_forall. intros a Ha.
      apply insert_obs_In in Ha. destruct Ha as [->|Ha].
      * now apply date_leb_total.
      * rewrite Forall_forall in Hall. now apply Hall.
Qed.

Lemma sort_index_sorted (df : DataFrame) : StronglySorted obs_le (sort_index df).
Proof.
  induction df as [|o t IH]; simpl; [constructor|].
  now apply insert_obs_sorted.
Qed.

(** ** The integers of a range *)

Lemma Zrange_In (lo hi Y : Z) : In Y (Zrange lo hi) <-> (lo <= Y <= hi)%Z.
Proof.
  unfold Zrange. rewrite in_map_iff. split.
  - intros (i & <- & Hi). apply in_seq in Hi. lia.
  - intros H. exists (Z.to_nat (Y - lo)). split; [lia|].
    apply in_seq. lia.
Qed.

Lemma Zrange_length (lo hi : Z) :
  length (Zrange lo hi) = Z.to_nat (hi - lo + 1).
Proof. unfold Zrange. now rewrite length_map, length_seq. Qed.

Lemma Zrange_increasing (lo hi : Z) :
  StronglySorted Z.lt (Zrange lo hi).
Proof.
  unfold Zrange. generalize (Z.to_nat (hi - lo + 1)) as n.
  generalize 0%nat as s. intros s n. revert s.
  induction n as [|n IH]; intros s; simpl; constructor.
  - apply IH.
  - apply Forall_forall. intros y Hy. apply in_map_iff in Hy.
    destruct Hy as (i & <- & Hi). apply in_seq in Hi. lia.
Qed.

(** ** The annual table *)

Lemma StronglySorted_map {A B : Type} (R : A -> A -> Prop) (R' : B -> B -> Prop)
  (f : A -> B) (l : list A) :
  (forall x y, R x y -> R' (f x) (f y)) ->
  StronglySorted R l -> StronglySorted R' (map f l).
Proof.
  intros Hf. induction 1 as [|x t HS IH Hall]; simpl; constructor; auto.
  apply Forall_forall. intros y Hy. apply in_map_iff in Hy.
  destruct Hy as (a & <- & Ha). apply Hf.
  rewrite Forall_forall in Hall. now apply Hall.
Qed.

(** The sorted index starts at an earliest row and ends at a latest row. *)
Lemma sort_index_ends (df : DataFrame) (omin omax : Obs) :
  In omin df -> In omax df ->
  (forall o, In o df ->
             date_le (Date omin) (Date o) /\ date_le (Date o) (Date omax)) ->
  exists first rest,
    sort_index df = first :: rest
    /\ Date first = Date omin /\ Date (last rest first) = Date omax.
Proof.
  intros Hmin Hmax Hext.
  destruct (sort_index df) as [|first rest] eqn:E.
  - apply sort_index_In in Hmin. rewrite E in Hmin. contradiction.
  - exists first, rest. split; [reflexivity|].
    pose proof (sort_index_sorted df) as HS. rewrite E in HS.
    assert (Hin : forall o, In o (first :: rest) <-> In o df)
      by (intros o; rewrite <- E; apply sort_index_In).
    assert (Hl : In (last rest first) (first :: rest)).
    { apply last_In. }
    split.
    + apply date_leb_antisym.
      * apply (StronglySorted_bounds first rest HS omin).
        now apply Hin.
      * apply date_leb_le, Hext, Hin. now left.
    + apply date_leb_antisym.
      * apply date_leb_le, Hext, Hin, Hl.
      * apply (StronglySorted_bounds first rest HS omax).
        now apply Hin.
Qed.

Lemma resample_AS_OCT_bins (df : DataFrame) (omin omax : Obs) :
  In omin df -> In omax df ->
  (forall o, In o df ->
             date_le (Date omin) (Date o) /\ date_le (Date o) (Date omax)) ->
  resample_AS_OCT df
  = map (fun Y => (oct1 Y, rows_between (oct1 Y) (oct1 (Y + 1)) (sort_index df)))
        (Zrange (water_year (Date omin)) (water_year (Date omax))).
Proof.
  intros Hmin Hmax Hext.
  destruct (sort_index_ends df omin omax Hmin Hmax Hext)
    as (first & rest & E & Hf & Hl).
  unfold resample_AS_OCT. rewrite E, Hf, Hl. reflexivity.
Qed.

(** On calendar dates the bin of October 1 of year [Y] is the closed
    window from October 1 of [Y] to September 30 of [Y + 1]. *)
Lemma rows_between_water_year (Y : Z) (df : DataFrame) :
  (forall o, In o df -> valid_date (Date o)) ->
  rows_between (oct1 Y) (oct1 (Y + 1)) df
  = filter (in_window (oct1 Y) (sep30 (Y + 1))) df.
Proof.
  intros Hv. unfold rows_between, in_window.
  apply filter_ext_in. intros o Ho.
  now rewrite (before_oct1 _ _ (Hv o Ho)).
Qed.

(** Every non-empty frame has an earliest and a latest row. *)
Lemma extremes_exist (df : DataFrame) :
  df <> [] ->
  exists omin omax,
    In omin df /\ In omax df
    /\ forall o, In o df ->
                 date_le (Date omin) (Date o) /\ date_le (Date o) (Date omax).
Proof.
  intros Hne.
  destruct (sort_index df) as [|first rest] eqn:E.
  - destruct df as [|o t]; [congruence|].
    assert (Ho : In o (sort_index (o :: t))) by (apply sort_index_In; now left).
    rewrite E in Ho. contradiction.
  - pose proof (sort_index_sorted df) as HS. rewrite E in HS.
    assert (Hin : forall o, In o (first :: rest) <-> In o df)
      by (intros o; rewrite <- E; apply sort_index_In).
    exists first, (last rest first). split; [apply Hin; now left|].
    split; [apply Hin, last_In|].
    intros o Ho. apply Hin in Ho.
    destruct (StronglySorted_bounds first rest HS o Ho) as [H1 H2].
    split; apply date_leb_le; assumption.
Qed.

(** C7.  The annual table has one row per water year, from the water
    year of the earliest observation to that of the latest, labelled
    October 1 of the year and in ascending order; a row is computed from
    the observations dated October 1 of its year to September 30 of the
    next, in date order; every observation falls in the bucket of its
    water year and in no other; a year of the range has its row whatever
    its bucket holds; and an input over two successive water years gives
    two rows. *)
Theorem GetAnnualStatistics_water_years (sqrtQ : Q -> Q) (DataDF : DataFrame)
  (omin omax : Obs)
  (Hmin : In omin DataDF) (Hmax : In omax DataDF)
  (Hext : forall o, In o DataDF ->
                    date_le (Date omin) (Date o) /\ date_le (Date o) (Date omax))
  (Hvalid : forall o, In o DataDF -> valid_date (Date o)) :
  let rows := GetAnnualStatistics sqrtQ DataDF in
  let Y0 := water_year (Date omin) in
  let Y1 := water_year (Date omax) in
  let bucket Y := filter (in_window (oct1 Y) (sep30 (Y + 1))) (sort_index DataDF) in
  rows = map (fun Y => annual_row sqrtQ (oct1 Y) (bucket Y)) (Zrange Y0 Y1)
  /\ StronglySorted date_lt (map WY.index rows)
  /\ (forall o, In o DataDF ->
        (Y0 <= water_year (Date o) <= Y1)%Z
        /\ forall Y, In o (bucket Y) <-> Y = water_year (Date o))
  /\ (forall Y, (Y0 <= Y <= Y1)%Z ->
        In (annual_row sqrtQ (oct1 Y) (bucket Y)) rows)
  /\ length rows = Z.to_nat (Y1 - Y0 + 1)
  /\ (Y1 = (Y0 + 1)%Z -> length rows = 2%nat).
Proof.
  intros rows Y0 Y1 bucket.
  assert (Hvs : forall o, In o (sort_index DataDF) -> valid_date (Date o))
    by (intros o Ho; apply Hvalid, sort_index_In, Ho).
  assert (Hrows : rows = map (fun Y => annual_row sqrtQ (oct1 Y) (bucket Y))
                             (Zrange Y0 Y1)).
  { unfold rows, GetAnnualStatistics.
    rewrite (resample_AS_OCT_bins DataDF omin omax Hmin Hmax Hext), map_map.
    apply map_ext. intros Y. cbn [fst snd]. unfold bucket.
    now rewrite (rows_between_water_year Y _ Hvs). }
  split; [exact Hrows|]. split; [|split; [|split; [|split]]].
  - rewrite Hrows, map_map. cbn [annual_row WY.index].
    apply (StronglySorted_map Z.lt); [exact oct1_lt | apply Zrange_increasing].
  - intros o Ho. split.
    + destruct (Hext o Ho) as [H1 H2].
      apply date_leb_le in H1, H2.
      split; now apply water_year_mono.
    + intros Y. unfold bucket. rewrite filter_In, sort_index_In.
      unfold in_window.
      rewrite <- (before_oct1 _ _ (Hvalid o Ho)).
      rewrite (water_year_bin _ _ (Hvalid o Ho)).
      rewrite Z.eqb_eq. intuition.
  - intros Y HY. rewrite Hrows. apply in_map_iff.
    exists Y. split; [reflexivity | now apply Zrange_In].
  - rewrite Hrows, length_map. apply Zrange_length.
  - intros H21. rewrite Hrows, length_map, Zrange_length.
    replace (Y1 - Y0 + 1)%Z with 2%Z by lia. reflexivity.
Qed.

Lemma GetAnnualStatistics_water_years_witness :
  let o1 := mkObs "USGS" (Fin 3335000) (mkdate 1969 10 1) (Fin 12) "A" in
  let o2 := mkObs "USGS" (Fin 3335000) (mkdate 1970 9 30) (Fin 7) "A" in
  let o3 := mkObs "USGS" (Fin 3335000) (mkdate 1970 10 1) NaN "A" in
  map WY.index (GetAnnualStatistics Qsqrt_floor [o1; o2; o3])
  = [oct1 1969; oct1 1970]
  /\ length (GetAnnualStatistics Qsqrt_floor [o1; o2; o3]) = 2%nat.
Proof.
  intros o1 o2 o3.
  assert (Hext : forall o, In o [o1; o2; o3] ->
                  date_le (Date o1) (Date o) /\ date_le (Date o) (Date o3)).
  { intros o [<-|[<-|[<-|[]]]]; split; vm_compute; discriminate. }
  assert (Hvalid : forall o, In o [o1; o2; o3] -> valid_date (Date o)).
  { intros o [<-|[<-|[<-|[]]]]; vm_compute; intuition discriminate. }
  destruct (GetAnnualStatistics_water_years Qsqrt_floor [o1; o2; o3] o1 o3
              (or_introl eq_refl) (or_intror (or_intror (or_introl eq_refl)))
              Hext Hvalid) as (Hrows & _ & _ & _ & _ & Htwo).
  split.
  - rewrite Hrows. reflexivity.
  - apply Htwo. reflexivity.
Defined.

(** A water year without observations has its row: between an
    observation of October 2000 and one of October 2002 the table has
    three rows, and the mean flow of the middle one is missing. *)
Lemma GetAnnualStatistics_empty_year :
  let o1 := mkObs "USGS" (Fin 3335000) (mkdate 2000 10 5) (Fin 12) "A" in
  let o2 := mkObs "USGS" (Fin 3335000) (mkdate 2002 10 5) (Fin 7) "A" in
  map (fun r => (WY.index r, WY.Mean_Flow r))
      (GetAnnualStatistics Qsqrt_floor [o1; o2])
  = [(oct1 2000, Fin (12 # 1)); (oct1 2001, NaN); (oct1 2002, Fin (7 # 1))].
Proof. vm_compute. reflexivity. Qed.

(** ** The monthly averages *)

Lemma every_kth_map {A B : Type} (f : A -> B) (k i : nat) (l : list A) :
  every_kth k i (map f l) = map f (every_kth k i l).
Proof.
  revert i. induction l as [|x t IH]; intros i; [reflexivity|].
  cbn [map every_kth]. destruct i; [cbn [map]; f_equal|]; apply IH.
Qed.

Lemma date_eqb_eq (a b : date) : date_eqb a b = true -> a = b.
Proof.
  unfold date_eqb. destruct a as [y1 m1 d1], b as [y2 m2 d2].
  date_cases.
Qed.

(** In a table labelled month by month from month number [k0], the rows
    at positions [i], [i + 12], [i + 24], ... are the rows of one
    calendar month. *)
Lemma every_12th_is_a_month (k0 : Z) (i : nat) (tbl : list (Mo.Row date)) :
  (i < 12)%nat ->
  month_labels_from k0 tbl = true ->
  every_kth 12 i tbl
  = filter (fun r => (month (Mo.index r) =? (k0 + Z.of_nat i) mod 12 + 1)%Z) tbl.
Proof.
  revert k0 i. induction tbl as [|r t IH]; intros k0 i Hi Hl; [reflexivity|].
  cbn [month_labels_from] in Hl. apply andb_true_iff in Hl.
  destruct Hl as [Hr Ht]. apply date_eqb_eq in Hr.
  cbn [every_kth filter]. rewrite Hr. cbn [month_end month].
  destruct i as [|i'].
  - replace (k0 + Z.of_nat 0)%Z with k0 by lia.
    rewrite Z.eqb_refl. f_equal.
    change (12 - 1)%nat with 11%nat.
    rewrite (IH (k0 + 1)%Z 11%nat) by (auto; lia).
    apply filter_ext. intros a.
    replace ((k0 + 1 + Z.of_nat 11) mod 12)%Z with (k0 mod 12)%Z; [reflexivity|].
    replace (k0 + 1 + Z.of_nat 11)%Z with (k0 + 1 * 12)%Z by lia.
    now rewrite Z.mod_add.
  - destruct (Z.eqb_spec (k0 mod 12 + 1) ((k0 + Z.of_nat (S i')) mod 12 + 1)) as [E|E].
    + exfalso.
      pose proof (Z.mod_pos_bound k0 12 ltac:(lia)).
      pose proof (Z.div_mod k0 12 ltac:(lia)).
      pose proof (Z.mod_pos_bound (k0 + Z.of_nat (S i')) 12 ltac:(lia)).
      pose proof (Z.div_mod (k0 + Z.of_nat (S i')) 12 ltac:(lia)).
      lia.
    + rewrite (IH (k0 + 1)%Z i') by (auto; lia).
      apply filter_ext. intros a.
      replace (k0 + 1 + Z.of_nat i')%Z with (k0 + Z.of_nat (S i'))%Z by lia.
      reflexivity.
Qed.

(** The table of averages, row by row. *)
Lemma GetMonthlyAverages_rows (MoDataDF : list (Mo.Row date)) :
  GetMonthlyAverages MoDataDF
  = map (fun nm =>
           Mo.mkRow (Z.of_nat (S (fst nm)))
             (fmean (step_slice 0 12 (column Mo.site_no MoDataDF)))
             (fmean (step_slice (snd nm) 12 (column Mo.Mean_Flow MoDataDF)))
             (fmean (step_slice (snd nm) 12 (column Mo.Coeff_Variantion MoDataDF)))
             (fmean (step_slice (snd nm) 12 (column Mo.TQmean MoDataDF)))
             (fmean (step_slice (snd nm) 12 (column Mo.RBindex MoDataDF))))
        index_pairs.
Proof. reflexivity. Qed.

(** A column of the averages when the table starts in October: the
    slice that starts at row [m] is the calendar month [(m + 9) mod 12 + 1]. *)
Lemma october_slice (col : Mo.Row date -> fl) (Y : Z) (m : nat)
  (tbl : list (Mo.Row date)) :
  (m < 12)%nat ->
  month_labels_from (october Y) tbl = true ->
  fmean (step_slice m 12 (column col tbl))
  = calendar_month_mean col ((Z.of_nat m + 9) mod 12 + 1) tbl.
Proof.
  intros Hm Hl. unfold step_slice, column, calendar_month_mean.
  rewrite every_kth_map, (every_12th_is_a_month (october Y) m tbl Hm Hl).
  unfold column. do 2 f_equal. apply filter_ext. intros a.
  replace ((october Y + Z.of_nat m) mod 12)%Z with ((Z.of_nat m + 9) mod 12)%Z;
    [reflexivity|].
  unfold october.
  replace (Y * 12 + 9 + Z.of_nat m)%Z with (Z.of_nat m + 9 + Y * 12)%Z by lia.
  now rewrite Z.mod_add.
Qed.

(** C2, as the code has it.  For a monthly table labelled month by
    month from an October, the table of averages has twelve rows with
    index 1 to 12 in calendar order, January first: the row of index
    [k] holds, for each of the four metrics, the mean over the rows of
    calendar month [k] of all years; the mean of the Octobers is in the
    row of index 10.  The column [site_no] holds in every row the mean
    over the October rows. *)
Theorem GetMonthlyAverages_calendar_order (MoDataDF : list (Mo.Row date))
  (Y : Z) (Hlabels : month_labels_from (october Y) MoDataDF = true) :
  let avg := GetMonthlyAverages MoDataDF in
  let by_month col := map (fun mth => calendar_month_mean col mth MoDataDF) in
  length avg = 12%nat
  /\ map Mo.index avg = calendar_order
  /\ map Mo.Mean_Flow avg = by_month Mo.Mean_Flow calendar_order
  /\ map Mo.Coeff_Variantion avg = by_month Mo.Coeff_Variantion calendar_order
  /\ map Mo.TQmean avg = by_month Mo.TQmean calendar_order
  /\ map Mo.RBindex avg = by_month Mo.RBindex calendar_order
  /\ map Mo.site_no avg
     = map (fun _ => calendar_month_mean Mo.site_no 10 MoDataDF) calendar_order
  /\ option_map Mo.Mean_Flow (nth_error avg 9)
     = Some (calendar_month_mean Mo.Mean_Flow 10 MoDataDF).
Proof.
  intros avg by_month. unfold avg, by_month.
  rewrite GetMonthlyAverages_rows.
  pose proof (fun col m Hm => october_slice col Y m MoDataDF Hm Hlabels) as Hs.
  unfold index_pairs, calendar_order.
  cbn [map fst snd length nth_error option_map
         Mo.index Mo.site_no Mo.Mean_Flow Mo.Coeff_Variantion Mo.TQmean
         Mo.RBindex].
  rewrite !Hs by lia.
  repeat split; reflexivity.
Qed.

Lemma GetMonthlyAverages_calendar_order_witness :
  map Mo.Mean_Flow (GetMonthlyAverages two_years_table)
  = map (fun mth => calendar_month_mean Mo.Mean_Flow mth two_years_table)
        calendar_order.
Proof.
  refine (proj1 (proj2 (proj2
    (GetMonthlyAverages_calendar_order two_years_table 1969 _)))).
  vm_compute. reflexivity.
Defined.

(** C2, as stated, fails on two water years of monthly data from
    October 1969: the rows of the averages are not the months in the
    order October, November, .., September.  The first row holds the
    mean of the two Januaries, 9, and the mean of the two Octobers, 6,
    is in the tenth row. *)
Lemma GetMonthlyAverages_not_water_year_order :
  month_labels_from (october 1969) two_years_table = true
  /\ ~ Forall2 feq
        (map Mo.Mean_Flow (GetMonthlyAverages two_years_table))
        (map (fun mth => calendar_month_mean Mo.Mean_Flow mth two_years_table)
             water_year_order)
  /\ option_map Mo.Mean_Flow (nth_error (GetMonthlyAverages two_years_table) 0)
     = Some (calendar_month_mean Mo.Mean_Flow 1 two_years_table)
  /\ calendar_month_mean Mo.Mean_Flow 1 two_years_table =f= Fin 9
  /\ calendar_month_mean Mo.Mean_Flow 10 two_years_table =f= Fin 6.
Proof.
  split; [vm_compute; reflexivity|]. split.
  - intros H.
    assert (E : hd NaN (map Mo.Mean_Flow (GetMonthlyAverages two_years_table))
                =f= hd NaN (map (fun mth =>
                                   calendar_month_mean Mo.Mean_Flow mth
                                     two_years_table) water_year_order)).
    { destruct H; [reflexivity | assumption]. }
    vm_compute in E. discriminate.
  - split; [vm_compute; reflexivity|].
    split; vm_compute; reflexivity.
Qed.

(** The monthly table is labelled month by month from the month of its
    earliest row, so the table of data that start in an October is one
    the statement above applies to. *)
Lemma date_eqb_refl (a : date) : date_eqb a a = true.
Proof. unfold date_eqb. destruct a as [y m d]. date_cases. Qed.

Lemma month_labels_range (f : Z -> Mo.Row date) (lo : Z) (n s : nat) :
  (forall k, Mo.index (f k) = month_end k) ->
  month_labels_from (lo + Z.of_nat s)
    (map f (map (fun i => (lo + Z.of_nat i)%Z) (seq s n))) = true.
Proof.
  intros Hf. revert s. induction n as [|n IH]; intros s; [reflexivity|].
  cbn [seq map month_labels_from]. rewrite Hf, date_eqb_refl. cbn [andb].
  replace (lo + Z.of_nat s + 1)%Z with (lo + Z.of_nat (S s))%Z by lia.
  apply IH.
Qed.

Lemma GetMonthlyStatistics_labels (sqrtQ : Q -> Q) (df : DataFrame)
  (first : Obs) (rest : DataFrame) :
  sort_index df = first :: rest ->
  month_labels_from (month_number (Date first)) (GetMonthlyStatistics sqrtQ df)
  = true.
Proof.
  intros E. unfold GetMonthlyStatistics, resample_M. rewrite E.
  rewrite map_map. cbn [fst snd]. unfold Zrange.
  replace (month_number (Date first))
    with (month_number (Date first) + Z.of_nat 0)%Z at 1 by (simpl; lia).
  apply (month_labels_range
           (fun k => monthly_row sqrtQ (month_end k)
                       (rows_between (month_start k) (month_start (k + 1))
                          (first :: rest)))).
  reflexivity.
Qed.

Lemma GetMonthlyStatistics_from_october (sqrtQ : Q -> Q) (df : DataFrame)
  (first : Obs) (rest : DataFrame) :
  sort_index df = first :: rest ->
  month (Date first) = 10%Z ->
  month_labels_from (october (year (Date first))) (GetMonthlyStatistics sqrtQ df)
  = true.
Proof.
  intros E Hm.
  replace (october (year (Date first))) with (month_number (Date first)).
  - now apply (GetMonthlyStatistics_labels sqrtQ df first rest).
  - unfold month_number, october. rewrite Hm. lia.
Qed.

(** * Further properties of the metric functions *)

(** ** The mean of the present readings *)

Lemma fmean_of_finite (qs : list Q) :
  qs <> [] ->
  fmean (map Fin qs) =f= Fin (total qs / inject_Z (Z.of_nat (length qs))).
Proof.
  intros Hne. pose proof (of_nat_pos _ (length_pos_of_ne _ Hne)) as Hpos.
  unfold fmean. rewrite dropna_map_Fin, length_map, fsum_map_Fin.
  unfold of_nat. rewrite fdiv_fin by lra. reflexivity.
Qed.

(** ** A bucket without a present value *)

(** X3.  On a bucket without a present value (empty, or missing
    throughout) the mean, the peak, the median, the coefficient of
    variation, Tqmean and the R-B Index are all missing, the count of
    days above three times the median is 0, and the rolling means
    [Calc7Q] binds are the empty series.  Nothing raises. *)
Theorem metrics_of_bucket_without_values (sqrtQ : Q -> Q) (Qvalues : Series)
  (Hnone : dropna Qvalues = []) :
  fmean Qvalues = NaN
  /\ smax Qvalues = NaN
  /\ median Qvalues = NaN
  /\ coeff_var sqrtQ Qvalues = NaN
  /\ CalcTqmean Qvalues = NaN
  /\ CalcRBindex Qvalues = NaN
  /\ CalcExceed3TimesMedian Qvalues = 0%nat
  /\ Calc7Q Qvalues = PyBoundMethod "min" [].
Proof.
  assert (Hs : fsum Qvalues = Fin 0) by (rewrite <- fsum_dropna, Hnone; reflexivity).
  assert (Hm : fmean Qvalues = NaN).
  { unfold fmean. rewrite Hs, Hnone. reflexivity. }
  repeat split.
  - exact Hm.
  - unfold smax. now rewrite Hnone.
  - unfold median. now rewrite Hnone.
  - unfold coeff_var, fstd, fvar. rewrite Hnone. reflexivity.
  - unfold CalcTqmean. rewrite Hnone. reflexivity.
  - rewrite CalcRBindex_unfold, Hnone. reflexivity.
  - unfold CalcExceed3TimesMedian. rewrite Hnone. reflexivity.
  - unfold Calc7Q. rewrite Hnone. reflexivity.
Qed.

Lemma metrics_of_bucket_without_values_witness :
  CalcTqmean [NaN; NaN; NaN] = NaN /\ CalcRBindex [NaN; NaN; NaN] = NaN.
Proof.
  destruct (metrics_of_bucket_without_values Qsqrt_floor [NaN; NaN; NaN] eq_refl)
    as (_ & _ & _ & _ & Ht & Hr & _).
  split; [exact Ht | exact Hr].
Defined.

(** ** The R-B Index of a bucket of readings *)

Lemma CalcRBindex_readings_eq (b : list (option Q)) :
  exists x y, x == pathlength (present_values b)
              /\ y == total (present_values b)
              /\ CalcRBindex (of_readings b) = fdiv (Fin x) (Fin y).
Proof. apply CalcRBindex_finite, dropna_of_readings. Qed.

(** ** The R-B Index of a steady flow *)

Lemma total_const (p : list Q) (v : Q) :
  Forall (fun q => q == v) p ->
  total p == inject_Z (Z.of_nat (length p)) * v.
Proof.
  induction 1 as [|x t Hx Ht IH].
  - cbn [total fold_right length]. change (inject_Z (Z.of_nat 0)) with 0. lra.
  - cbn [total fold_right length]. fold (total t).
    rewrite Nat2Z.inj_succ. unfold Z.succ. rewrite inject_Z_plus.
    change (inject_Z 1) with 1. rewrite IH, Hx. ring.
Qed.

Lemma pathlength_from_const (prev v : Q) (p : list Q) :
  prev == v -> Forall (fun q => q == v) p -> pathlength_from prev p == 0.
Proof.
  revert prev. induction p as [|y t IH]; intros prev Hp Hall;
    cbn [pathlength_from]; [reflexivity|].
  inversion Hall as [|? ? Hy Ht]; subst.
  rewrite (IH y Hy Ht).
  assert (E : y - prev == 0) by lra.
  rewrite E. reflexivity.
Qed.

(** X7.  A bucket whose present readings are all the same value, not
    zero, has R-B Index 0, however many readings there are and wherever
    the gaps fall. *)
Theorem CalcRBindex_steady (b : list (option Q)) (v : Q)
  (Hne : present_values b <> [])
  (Hall : Forall (fun q => q == v) (present_values b))
  (Hv : ~ v == 0) :
  CalcRBindex (of_readings b) =f= Fin 0.
Proof.
  destruct (CalcRBindex_readings_eq b) as (x & y & Hx & Hy & HR).
  rewrite HR.
  assert (Hx0 : x == 0).
  { rewrite Hx. destruct (present_values b) as [|u t]; [congruence|].
    inversion Hall; subst. cbn [pathlength].
    now apply (pathlength_from_const u v). }
  assert (Hy0 : ~ y == 0).
  { rewrite Hy, (total_const _ v Hall).
    pose proof (of_nat_pos _ (length_pos_of_ne _ Hne)) as Hpos.
    intros Hz. apply Qmult_integral in Hz. destruct Hz; [lra | contradiction]. }
  rewrite fdiv_fin by exact Hy0. cbn [feq]. rewrite Hx0. field. exact Hy0.
Qed.

Lemma CalcRBindex_steady_witness :
  CalcRBindex (of_readings [Some 5; None; Some (10 # 2); Some 5]) =f= Fin 0.
Proof.
  apply (CalcRBindex_steady _ 5).
  - discriminate.
  - repeat constructor.
  - discriminate.
Defined.

(** ** Days above three times the median *)

Lemma insert_sorted_Fin (x : Q) (s : list Q) :
  insert_sorted (Fin x) (map Fin s) = map Fin (qinsert x s).
Proof.
  induction s as [|y t IH]; [reflexivity|].
  cbn [map insert_sorted qinsert].
  change (fgt (Fin x) (Fin y)) with (Qgt_bool x y).
  destruct (Qgt_bool x y); cbn [map]; [now rewrite IH | reflexivity].
Qed.

Lemma sort_values_Fin (qs : list Q) :
  sort_values (map Fin qs) = map Fin (qsort qs).
Proof.
  induction qs as [|x t IH]; [reflexivity|].
  unfold sort_values, qsort in *. cbn [map fold_right].
  rewrite IH. apply insert_sorted_Fin.
Qed.

Lemma qinsert_In (x y : Q) (s : list Q) :
  In y (qinsert x s) <-> y = x \/ In y s.
Proof.
  induction s as [|z t IH]; simpl; [intuition|].
  destruct (Qgt_bool x z); simpl; [rewrite IH|]; intuition.
Qed.

Lemma qsort_In (y : Q) (s : list Q) : In y (qsort s) <-> In y s.
Proof.
  induction s as [|x t IH]; simpl; [tauto|].
  rewrite qinsert_In, IH. intuition.
Qed.

Lemma qinsert_length (x : Q) (s : list Q) :
  length (qinsert x s) = S (length s).
Proof.
  induction s as [|z t IH]; simpl; auto.
  destruct (Qgt_bool x z); simpl; auto.
Qed.

Lemma qsort_length (s : list Q) : length (qsort s) = length s.
Proof.
  induction s as [|x t IH]; simpl; auto.
  now rewrite qinsert_length, IH.
Qed.

Lemma Qgt_bool_true (a b : Q) : Qgt_bool a b = true <-> b < a.
Proof.
  unfold Qgt_bool. destruct (a ?= b) eqn:C.
  - rewrite <- Qeq_alt in C. split; [discriminate | lra].
  - rewrite <- Qlt_alt in C. split; [discriminate | lra].
  - rewrite <- Qgt_alt in C. split; auto.
Qed.

Lemma Qgt_bool_false (a b : Q) : Qgt_bool a b = false <-> a <= b.
Proof.
  pose proof (Qgt_bool_true a b) as H.
  destruct (Qgt_bool a b); split; intros H'; try discriminate; auto.
  - assert (b < a) by now apply H. lra.
  - destruct (Qlt_le_dec b a) as [Hlt|Hle]; [|lra].
    apply H in Hlt. discriminate.
Qed.

Lemma qinsert_sorted (x : Q) (s : list Q) :
  StronglySorted Qle s -> StronglySorted Qle (qinsert x s).
Proof.
  induction 1 as [|y t HS IH Hall]; simpl.
  - repeat constructor.
  - destruct (Qgt_bool x y) eqn:E.
    + apply Qgt_bool_true in E.
      constructor; [exact IH|].
      apply Forall_forall. intros a Ha. apply qinsert_In in Ha.
      destruct Ha as [->|Ha]; [lra|].
      rewrite Forall_forall in Hall. now apply Hall.
    + apply Qgt_bool_false in E.
      constructor; [now constructor|].
      constructor; [exact E|].
      eapply Forall_impl; [|exact Hall]. intros a Ha. cbn beta in Ha. lra.
Qed.

Lemma qsort_sorted (s : list Q) : StronglySorted Qle (qsort s).
Proof.
  induction s as [|x t IH]; simpl; [constructor | now apply qinsert_sorted].
Qed.

Lemma qinsert_count (f : Q -> bool) (x : Q) (s : list Q) :
  length (filter f (qinsert x s)) = length (filter f (x :: s)).
Proof.
  induction s as [|y t IH]; [reflexivity|].
  cbn [qinsert]. destruct (Qgt_bool x y); [|reflexivity].
  cbn [filter] in *.
  destruct (f y), (f x); cbn [length] in *; lia.
Qed.

Lemma qsort_count (f : Q -> bool) (s : list Q) :
  length (filter f (qsort s)) = length (filter f s).
Proof.
  induction s as [|x t IH]; [reflexivity|].
  cbn [qsort fold_right]. fold (qsort t).
  rewrite qinsert_count. cbn [filter].
  destruct (f x); cbn [length]; now rewrite IH.
Qed.

Lemma filter_length_mono {A : Type} (f g : A -> bool) (l : list A) :
  (forall x, In x l -> f x = true -> g x = true) ->
  (length (filter f l) <= length (filter g l))%nat.
Proof.
  induction l as [|x t IH]; intros H; [reflexivity|].
  cbn [filter].
  assert (Ht : (length (filter f t) <= length (filter g t))%nat)
    by (apply IH; intros y Hy; apply H; now right).
  destruct (f x) eqn:Ef.
  - rewrite (H x (or_introl eq_refl) Ef). cbn [length]. lia.
  - destruct (g x); cbn [length]; lia.
Qed.

(** In an ascending list at most [n - k - 1] entries exceed entry [k]. *)
Lemma sorted_count_above_nth (s : list Q) (k : nat) :
  StronglySorted Qle s -> (k < length s)%nat ->
  (length (filter (fun v => Qgt_bool v (nth k s 0%Q)) s) <= length s - k - 1)%nat.
Proof.
  intros HS. revert k. induction HS as [|y t HS IH Hall]; intros k Hk.
  - cbn [length] in Hk. lia.
  - rewrite Forall_forall in Hall. cbn [length] in *.
    destruct k as [|k'].
    + cbn [nth filter].
      assert (E : Qgt_bool y y = false) by (apply Qgt_bool_false; lra).
      rewrite E. pose proof (filter_length_le (fun v => Qgt_bool v y) t). lia.
    + cbn [nth filter].
      assert (Hin : In (nth k' t 0) t) by (apply nth_In; lia).
      assert (E : Qgt_bool y (nth k' t 0) = false)
        by (apply Qgt_bool_false, Hall, Hin).
      rewrite E. specialize (IH k' ltac:(lia)). lia.
Qed.

Lemma sorted_nth_le (s : list Q) (i j : nat) :
  StronglySorted Qle s -> (i <= j)%nat -> (j < length s)%nat ->
  nth i s 0 <= nth j s 0.
Proof.
  intros HS. revert i j. induction HS as [|y t HS IH Hall]; intros i j Hij Hj.
  - cbn [length] in Hj. lia.
  - cbn [length] in Hj. destruct i as [|i'], j as [|j']; cbn [nth]; try lia.
    + lra.
    + rewrite Forall_forall in Hall. apply Hall, nth_In. lia.
    + apply IH; lia.
Qed.

Lemma nth_map_Fin (k : nat) (s : list Q) :
  (k < length s)%nat -> nth k (map Fin s) NaN = Fin (nth k s 0).
Proof.
  revert k. induction s as [|x t IH]; intros k Hk; cbn [length] in Hk; [lia|].
  destruct k; cbn [map nth]; [reflexivity | apply IH; lia].
Qed.

(** The median of values without gaps is a rational that at most half
    of the values exceed, and it is not negative when no value is. *)
Lemma median_of_finite (qs : list Q) :
  qs <> [] ->
  exists m, median (map Fin qs) = Fin m
            /\ (2 * length (filter (fun v => Qgt_bool v m) qs) <= length qs)%nat
            /\ (Forall (fun q => 0 <= q) qs -> 0 <= m).
Proof.
  intros Hne.
  pose proof (length_pos_of_ne _ Hne) as Hpos.
  pose proof (qsort_sorted qs) as HS.
  pose proof (qsort_length qs) as Hlen.
  set (s := qsort qs) in *. set (n := length qs) in *.
  assert (Hnn : Forall (fun q => 0 <= q) qs -> forall k, (k < n)%nat -> 0 <= nth k s 0).
  { intros Hall k Hk. rewrite Forall_forall in Hall.
    apply Hall, (qsort_In _ qs). fold s. apply nth_In. lia. }
  unfold median. rewrite dropna_map_Fin, sort_values_Fin, length_map.
  fold s. rewrite Hlen.
  destruct (n =? 0)%nat eqn:E0; [apply Nat.eqb_eq in E0; lia|].
  pose proof (Nat.div_mod_eq n 2) as Hdm.
  destruct (Nat.odd n) eqn:Eodd.
  - (* odd: the middle value *)
    assert (Hmod : (n mod 2 = 1)%nat).
    { pose proof (Nat.mod_upper_bound n 2 ltac:(lia)).
      apply Nat.odd_spec in Eodd. destruct Eodd as [h Hh]. lia. }
    exists (nth (n / 2) s 0). split; [apply nth_map_Fin; lia|]. split.
    + rewrite <- (qsort_count _ qs). fold s.
      pose proof (sorted_count_above_nth s (n / 2) HS ltac:(lia)). lia.
    + intros Hall. apply Hnn; [exact Hall | lia].
  - (* even: the mean of the two middle values *)
    assert (Hmod : (n mod 2 = 0)%nat).
    { pose proof (Nat.mod_upper_bound n 2 ltac:(lia)).
      assert (Heven : Nat.even n = true)
        by (rewrite <- Nat.negb_odd, Eodd; reflexivity).
      apply Nat.even_spec in Heven. destruct Heven as [h Hh]. lia. }
    rewrite !nth_map_Fin by lia.
    cbn [fadd]. rewrite fdiv_fin by discriminate.
    eexists. split; [reflexivity|].
    pose proof (sorted_nth_le s (n / 2 - 1) (n / 2) HS ltac:(lia) ltac:(lia)) as Hle.
    split.
    + rewrite <- (qsort_count _ qs). fold s.
      pose proof (sorted_count_above_nth s (n / 2 - 1) HS ltac:(lia)) as Hc.
      assert (Hmono :
        (length (filter (fun v => Qgt_bool v
                           ((nth (n / 2 - 1) s 0 + nth (n / 2) s 0) / 2)%Q) s)
         <= length (filter (fun v => Qgt_bool v (nth (n / 2 - 1) s 0%Q)) s))%nat).
      { apply filter_length_mono. intros x _ Hx.
        apply Qgt_bool_true in Hx. apply Qgt_bool_true.
        assert (nth (n / 2 - 1) s 0
                <= (nth (n / 2 - 1) s 0 + nth (n / 2) s 0) / 2)
          by (apply Qle_shift_div_l; lra).
        lra. }
      lia.
    + intros Hall.
      pose proof (Hnn Hall (n / 2 - 1)%nat ltac:(lia)).
      pose proof (Hnn Hall (n / 2)%nat ltac:(lia)).
      apply Qle_shift_div_l; lra.
Qed.

(** X8.  On a bucket of readings none of which is negative, at most
    half of the present readings are above three times the median:
    twice the count of [CalcExceed3TimesMedian] is at most the number of
    present readings. *)
Theorem CalcExceed3TimesMedian_at_most_half (b : list (option Q))
  (Hnonneg : Forall (fun q => 0 <= q) (present_values b)) :
  (2 * CalcExceed3TimesMedian (of_readings b) <= length (present_values b))%nat.
Proof.
  unfold CalcExceed3TimesMedian. rewrite dropna_of_readings.
  destruct (present_values b) as [|x t] eqn:Ep; [cbn; lia|].
  destruct (median_of_finite (x :: t) ltac:(discriminate)) as (m & Hm & Hhalf & Hm0).
  rewrite Hm. cbn [fmul].
  rewrite (count_gt_map_Fin (x :: t) (Fin (3 * m)) (3 * m) (feq_refl _)).
  specialize (Hm0 Hnonneg).
  assert (Hmono :
    (length (filter (fun q => Qgt_bool q (3 * m)%Q) (x :: t))
     <= length (filter (fun q => Qgt_bool q m) (x :: t)))%nat).
  { apply filter_length_mono. intros q _ Hq.
    apply Qgt_bool_true in Hq. apply Qgt_bool_true. lra. }
  lia.
Qed.

Lemma CalcExceed3TimesMedian_at_most_half_witness :
  (2 * CalcExceed3TimesMedian
         (of_readings [Some 1; Some 40; None; Some 2; Some 50; Some 3]%Q)
   <= 5)%nat.
Proof.
  apply (CalcExceed3TimesMedian_at_most_half
           [Some 1; Some 40; None; Some 2; Some 50; Some 3]).
  repeat constructor; discriminate.
Defined.

(** * Further properties of clipping *)

Lemma StronglySorted_monotonic (df : DataFrame) :
  StronglySorted obs_le df -> is_monotonic_increasing df = true.
Proof.
  intros HS. destruct df as [|o t]; [reflexivity|].
  cbn [is_monotonic_increasing]. revert o HS.
  induction t as [|x t' IH]; intros o HS; [reflexivity|].
  apply StronglySorted_inv in HS. destruct HS as [HSt Hall].
  cbn [monotonic_from]. apply andb_true_iff. split.
  - rewrite Forall_forall in Hall. apply (Hall x). now left.
  - now apply IH.
Qed.

Lemma StronglySorted_filter_obs (f : Obs -> bool) (df : DataFrame) :
  StronglySorted obs_le df -> StronglySorted obs_le (filter f df).
Proof.
  induction 1 as [|x t HS IH Hall]; cbn [filter]; [constructor|].
  destruct (f x); [|exact IH].
  constructor; [exact IH|].
  apply Forall_forall. intros y Hy. apply filter_In in Hy.
  rewrite Forall_forall in Hall. now apply Hall.
Qed.

Lemma filter_monotonic (f : Obs -> bool) (df : DataFrame) :
  is_monotonic_increasing df = true ->
  is_monotonic_increasing (filter f df) = true.
Proof.
  intros H. apply StronglySorted_monotonic, StronglySorted_filter_obs.
  now apply monotonic_StronglySorted.
Qed.

Lemma ClipData_window (df : DataFrame) (a b : date) :
  is_monotonic_increasing df = true ->
  ClipData df a b
  = (filter (in_window a b) df,
     isna_sum (column Discharge (filter (in_window a b) df))).
Proof.
  intros H. unfold ClipData. now rewrite (loc_slice_window df a b H).
Qed.

(** X10.  Clipping a sequence in date order twice keeps the rows dated
    in both windows; with the second window inside the first it is the
    same as clipping to the second window alone, and clipping again to
    the same window changes nothing. *)
Theorem ClipData_twice (DataDF : DataFrame) (a b c d : date)
  (Hsorted : is_monotonic_increasing DataDF = true) :
  fst (ClipData (fst (ClipData DataDF a b)) c d)
  = filter (fun o => in_window c d o && in_window a b o) DataDF
  /\ (date_le a c -> date_le d b ->
      ClipData (fst (ClipData DataDF a b)) c d = ClipData DataDF c d)
  /\ ClipData (fst (ClipData DataDF a b)) a b = ClipData DataDF a b.
Proof.
  assert (Hin : forall c' d',
             ClipData (fst (ClipData DataDF a b)) c' d'
             = (filter (fun o => in_window c' d' o && in_window a b o) DataDF,
                isna_sum (column Discharge
                   (filter (fun o => in_window c' d' o && in_window a b o)
                      DataDF)))).
  { intros c' d'. rewrite (ClipData_window DataDF a b Hsorted). cbn [fst].
    rewrite (ClipData_window _ c' d' (filter_monotonic _ _ Hsorted)).
    now rewrite filter_filter. }
  split; [now rewrite Hin|]. split.
  - intros Hac Hdb. rewrite Hin, (ClipData_window DataDF c d Hsorted).
    assert (E : filter (fun o => in_window c d o && in_window a b o) DataDF
                = filter (in_window c d) DataDF).
    { apply filter_ext. intros o. unfold in_window.
      apply date_leb_le in Hac, Hdb.
      destruct (date_leb c (Date o)) eqn:E1; [|reflexivity].
      destruct (date_leb (Date o) d) eqn:E2; [|reflexivity].
      rewrite (date_leb_trans _ _ _ Hac E1), (date_leb_trans _ _ _ E2 Hdb).
      reflexivity. }
    now rewrite E.
  - rewrite Hin, (ClipData_window DataDF a b Hsorted).
    assert (E : filter (fun o => in_window a b o && in_window a b o) DataDF
                = filter (in_window a b) DataDF).
    { apply filter_ext. intros o. now destruct (in_window a b o). }
    now rewrite E.
Qed.

Lemma ClipData_twice_witness :
  let o1 := mkObs "USGS" (Fin 3335000) (mkdate 1969 9 30) (Fin 12) "A" in
  let o2 := mkObs "USGS" (Fin 3335000) (mkdate 1969 10 1) NaN "A" in
  let o3 := mkObs "USGS" (Fin 3335000) (mkdate 1969 10 2) (Fin 9) "A" in
  ClipData (fst (ClipData [o1; o2; o3] (mkdate 1969 10 1) (mkdate 2019 9 30)))
           (mkdate 1969 10 1) (mkdate 2019 9 30)
  = ([o2; o3], 1%nat).
Proof.
  intros o1 o2 o3.
  rewrite (proj2 (proj2 (ClipData_twice [o1; o2; o3]
                           (mkdate 1969 10 1) (mkdate 2019 9 30)
                           (mkdate 1969 10 1) (mkdate 2019 9 30) eq_refl))).
  reflexivity.
Defined.

(** X11.  Clipping a sequence in date order to a window that holds none
    of its dates, or to a window whose end is before its start, returns
    the empty sequence and the missing count 0. *)
Theorem ClipData_empty_window (DataDF : DataFrame) (startDate endDate : date)
  (Hsorted : is_monotonic_increasing DataDF = true) :
  ((forall o, In o DataDF ->
              date_lt (Date o) startDate \/ date_lt endDate (Date o)) ->
   ClipData DataDF startDate endDate = ([], 0%nat))
  /\ (date_lt endDate startDate ->
      ClipData DataDF startDate endDate = ([], 0%nat)).
Proof.
  assert (Hnone : (forall o, In o DataDF -> in_window startDate endDate o = false) ->
                  ClipData DataDF startDate endDate = ([], 0%nat)).
  { intros H. rewrite (ClipData_window _ _ _ Hsorted), filter_none by exact H.
    reflexivity. }
  split.
  - intros Hout. apply Hnone. intros o Ho. unfold in_window.
    destruct (Hout o Ho) as [H|H]; apply date_ltb_lt in H;
      rewrite date_ltb_leb in H; apply negb_true_iff in H; rewrite H;
      [reflexivity | apply andb_false_r].
  - intros Hinv. apply Hnone. intros o _. unfold in_window.
    destruct (date_leb startDate (Date o)) eqn:E1; [|reflexivity].
    destruct (date_leb (Date o) endDate) eqn:E2; [|reflexivity].
    pose proof (date_leb_trans _ _ _ E1 E2) as Hle.
    apply date_ltb_lt in Hinv. rewrite date_ltb_leb, Hle in Hinv.
    discriminate.
Qed.

Lemma ClipData_empty_window_witness :
  let o1 := mkObs "USGS" (Fin 3335000) (mkdate 1954 6 1) NaN "A" in
  let o2 := mkObs "USGS" (Fin 3335000) (mkdate 1954 6 2) (Fin 9) "A" in
  ClipData [o1; o2] (mkdate 1969 10 1) (mkdate 2019 9 30) = ([], 0%nat).
Proof.
  intros o1 o2.
  apply (proj1 (ClipData_empty_window [o1; o2] (mkdate 1969 10 1)
                  (mkdate 2019 9 30) eq_refl)).
  intros o [<-|[<-|[]]]; left; reflexivity.
Defined.

Lemma isna_sum_filter (f : Obs -> bool) (df : DataFrame) :
  (isna_sum (column Discharge (filter f df))
   <= isna_sum (column Discharge df))%nat.
Proof.
  unfold isna_sum, column.
  induction df as [|o t IH]; [reflexivity|].
  cbn [filter map]. destruct (f o); cbn [map filter];
    destruct (isna (Discharge o)); cbn [length]; lia.
Qed.

Lemma isna_sum_dropna (s : Series) :
  (isna_sum s + length (dropna s) = length s)%nat.
Proof.
  unfold isna_sum, dropna, notna.
  induction s as [|x t IH]; [reflexivity|].
  cbn [filter]. destruct (isna x); cbn [negb length]; lia.
Qed.

(** X12.  The result of clipping a sequence in date order is again in
    date order, holds no more rows and no more missing discharges than
    the sequence, and its missing count is recomputed from its own
    rows: missing and present discharges add up to the rows kept. *)
Theorem ClipData_result (DataDF : DataFrame) (startDate endDate : date)
  (Hsorted : is_monotonic_increasing DataDF = true) :
  let rows := fst (ClipData DataDF startDate endDate) in
  let missing := snd (ClipData DataDF startDate endDate) in
  is_monotonic_increasing rows = true
  /\ (length rows <= length DataDF)%nat
  /\ (missing <= isna_sum (column Discharge DataDF))%nat
  /\ (missing + length (dropna (column Discharge rows)) = length rows)%nat.
Proof.
  cbv zeta. rewrite (ClipData_window _ _ _ Hsorted). cbn [fst snd].
  split; [now apply filter_monotonic|].
  split; [apply filter_length_le|].
  split; [apply isna_sum_filter|].
  rewrite isna_sum_dropna. unfold column. apply length_map.
Qed.

Lemma ClipData_result_witness :
  let o1 := mkObs "USGS" (Fin 3335000) (mkdate 1969 9 30) NaN "A" in
  let o2 := mkObs "USGS" (Fin 3335000) (mkdate 1969 10 1) NaN "A" in
  let o3 := mkObs "USGS" (Fin 3335000) (mkdate 1969 10 2) (Fin 9) "A" in
  (snd (ClipData [o1; o2; o3] (mkdate 1969 10 1) (mkdate 2019 9 30))
   <= isna_sum (column Discharge [o1; o2; o3]))%nat.
Proof.
  intros o1 o2 o3.
  exact (proj1 (proj2 (proj2
    (ClipData_result [o1; o2; o3] (mkdate 1969 10 1) (mkdate 2019 9 30)
       eq_refl)))).
Defined.

(** * Further properties of the annual and monthly tables *)

(** ** The order of the rows of the frame *)

Lemma insert_obs_perm (o : Obs) (l : DataFrame) :
  Permutation (insert_obs o l) (o :: l).
Proof.
  induction l as [|x t IH]; [apply Permutation_refl|].
  cbn [insert_obs]. destruct (date_leb (Date o) (Date x)).
  - apply Permutation_refl.
  - eapply Permutation_trans; [apply perm_skip, IH | apply perm_swap].
Qed.

Lemma sort_index_perm (df : DataFrame) : Permutation (sort_index df) df.
Proof.
  induction df as [|o t IH]; [apply Permutation_refl|].
  cbn [sort_index fold_right]. fold (sort_index t).
  eapply Permutation_trans; [apply insert_obs_perm | now apply perm_skip].
Qed.

(** A frame already in date order is its own sorted index. *)
Lemma sort_index_sorted_id (df : DataFrame) :
  StronglySorted obs_le df -> sort_index df = df.
Proof.
  induction 1 as [|x t HS IH Hall]; [reflexivity|].
  cbn [sort_index fold_right]. fold (sort_index t). rewrite IH.
  destruct t as [|y t']; [reflexivity|].
  cbn [insert_obs]. rewrite Forall_forall in Hall.
  assert (E : date_leb (Date x) (Date y) = true) by (apply Hall; now left).
  now rewrite E.
Qed.

(** Two frames in date order with the same rows, no two of one date,
    are the same frame. *)
Lemma sorted_perm_unique (l l' : DataFrame) :
  StronglySorted obs_le l -> StronglySorted obs_le l' ->
  Permutation l l' -> NoDup (map Date l) -> l = l'.
Proof.
  intros HS. revert l'. induction HS as [|x t HS IH Hall]; intros l' HS' Hp Hnd.
  - apply Permutation_nil in Hp. now subst.
  - destruct l' as [|x' t'].
    + apply Permutation_sym, Permutation_nil in Hp. discriminate.
    + apply StronglySorted_inv in HS'. destruct HS' as [HSt' Hall'].
      rewrite Forall_forall in Hall, Hall'.
      cbn [map] in Hnd. apply NoDup_cons_iff in Hnd. destruct Hnd as [Hnin Hnd].
      assert (Hx' : In x' (x :: t))
        by (apply (Permutation_in x' (Permutation_sym Hp)); now left).
      assert (Hx : In x (x' :: t'))
        by (apply (Permutation_in x Hp); now left).
      assert (Heq : x' = x).
      { destruct Hx' as [E|Hin]; [now symmetry|].
        exfalso. apply Hnin.
        assert (Hle1 : obs_le x x') by now apply Hall.
        assert (Hle2 : obs_le x' x).
        { destruct Hx as [E|Hin']; [subst; apply date_leb_refl | now apply Hall']. }
        rewrite (date_leb_antisym _ _ Hle1 Hle2).
        now apply in_map. }
      subst x'. f_equal.
      apply IH; [exact HSt' | | exact Hnd].
      now apply Permutation_cons_inv in Hp.
Qed.

Lemma sort_index_of_perm (df df' : DataFrame) :
  Permutation df df' -> NoDup (map Date df) ->
  sort_index df' = sort_index df.
Proof.
  intros Hp Hnd. symmetry. apply sorted_perm_unique.
  - apply sort_index_sorted.
  - apply sort_index_sorted.
  - eapply Permutation_trans; [apply sort_index_perm|].
    eapply Permutation_trans; [exact Hp|].
    apply Permutation_sym, sort_index_perm.
  - eapply Permutation_NoDup; [|exact Hnd].
    apply Permutation_map, Permutation_sym, sort_index_perm.
Qed.

(** X13.  The annual and the monthly table do not depend on the order
    of the rows of the frame, when no two rows have the same date: the
    resampler orders the rows by date itself. *)
Theorem statistics_ignore_row_order (sqrtQ : Q -> Q) (DataDF DataDF' : DataFrame)
  (Hperm : Permutation DataDF DataDF')
  (Hdistinct : NoDup (map Date DataDF)) :
  GetAnnualStatistics sqrtQ DataDF' = GetAnnualStatistics sqrtQ DataDF
  /\ GetMonthlyStatistics sqrtQ DataDF' = GetMonthlyStatistics sqrtQ DataDF.
Proof.
  pose proof (sort_index_of_perm DataDF DataDF' Hperm Hdistinct) as E.
  unfold GetAnnualStatistics, GetMonthlyStatistics, resample_AS_OCT, resample_M.
  rewrite E. split; reflexivity.
Qed.

Lemma statistics_ignore_row_order_witness :
  let o1 := mkObs "USGS" (Fin 3335000) (mkdate 1969 10 1) (Fin 12) "A" in
  let o2 := mkObs "USGS" (Fin 3335000) (mkdate 1970 9 30) (Fin 7) "A" in
  let o3 := mkObs "USGS" (Fin 3335000) (mkdate 1970 10 1) NaN "A" in
  GetAnnualStatistics Qsqrt_floor [o2; o1; o3]
  = GetAnnualStatistics Qsqrt_floor [o1; o2; o3].
Proof.
  intros o1 o2 o3.
  refine (proj1 (statistics_ignore_row_order Qsqrt_floor [o1; o2; o3]
                   [o2; o1; o3] _ _)).
  - apply perm_swap.
  - cbn [map]. repeat constructor; cbn [In]; intuition discriminate.
Defined.

(** ** Month bins *)

Lemma resample_M_bins (df : DataFrame) (omin omax : Obs) :
  In omin df -> In omax df ->
  (forall o, In o df ->
             date_le (Date omin) (Date o) /\ date_le (Date o) (Date omax)) ->
  resample_M df
  = map (fun k => (month_end k,
                   rows_between (month_start k) (month_start (k + 1))
                     (sort_index df)))
        (Zrange (month_number (Date omin)) (month_number (Date omax))).
Proof.
  intros Hmin Hmax Hext.
  destruct (sort_index_ends df omin omax Hmin Hmax Hext)
    as (first & rest & E & Hf & Hl).
  unfold resample_M. rewrite E, Hf, Hl. reflexivity.
Qed.

(** The bin of month number [k] holds the calendar dates of that year
    and month. *)
Lemma month_bin (d : date) (k : Z) :
  valid_date d ->
  date_leb (month_start k) d && date_ltb d (month_start (k + 1))
  = ((year d =? k / 12) && (month d =? k mod 12 + 1))%Z.
Proof.
  intros [Hm [Hd _]]. revert Hm Hd. unfold month_start.
  pose proof (Z.div_mod k 12 ltac:(lia)) as Hk.
  pose proof (Z.mod_pos_bound k 12 ltac:(lia)) as Hr.
  pose proof (Z.div_mod (k + 1) 12 ltac:(lia)) as Hk'.
  pose proof (Z.mod_pos_bound (k + 1) 12 ltac:(lia)) as Hr'.
  revert Hk Hr Hk' Hr'.
  generalize (k / 12)%Z as q, (k mod 12)%Z as r,
             ((k + 1) / 12)%Z as q', ((k + 1) mod 12)%Z as r'.
  intros q r q' r'. destruct d as [y m dd].
  cbn [year month day].
  destruct (Z.eqb_spec y q); destruct (Z.eqb_spec m (r + 1)); cbn [andb];
    date_cases.
Qed.

Lemma month_number_mono (a b : date) :
  valid_date a -> valid_date b ->
  date_leb a b = true -> (month_number a <= month_number b)%Z.
Proof.
  intros [Ha _] [Hb _]. revert Ha Hb.
  destruct a as [y1 m1 d1], b as [y2 m2 d2]. unfold month_number.
  cbn [year month day]. date_cases.
Qed.

Lemma month_end_lt (k k' : Z) :
  (k < k')%Z -> date_lt (month_end k) (month_end k').
Proof.
  intros Hlt.
  pose proof (Z.div_mod k 12 ltac:(lia)) as Hk.
  pose proof (Z.mod_pos_bound k 12 ltac:(lia)) as Hr.
  pose proof (Z.div_mod k' 12 ltac:(lia)) as Hk'.
  pose proof (Z.mod_pos_bound k' 12 ltac:(lia)) as Hr'.
  revert Hk Hr Hk' Hr'. unfold month_end.
  generalize (days_in_month (k / 12) (k mod 12 + 1)) as e,
             (days_in_month (k' / 12) (k' mod 12 + 1)) as e'.
  generalize (k / 12)%Z as q, (k mod 12)%Z as r,
             (k' / 12)%Z as q', (k' mod 12)%Z as r'.
  intros q r q' r' e e'. date_cases.
Qed.

Lemma month_number_parts (d : date) :
  (1 <= month d <= 12)%Z ->
  (month_number d / 12 = year d /\ month_number d mod 12 + 1 = month d)%Z.
Proof.
  intros Hm. unfold month_number.
  pose proof (Z.div_mod (year d * 12 + (month d - 1)) 12 ltac:(lia)) as Hk.
  pose proof (Z.mod_pos_bound (year d * 12 + (month d - 1)) 12 ltac:(lia)) as Hr.
  lia.
Qed.

(** X14.  The monthly table has one row per calendar month, from the
    month of the earliest observation to the month of the latest,
    labelled by the last day of the month and in ascending order; a row
    is computed from the observations of its year and month, in date
    order; every observation falls in the bucket of its own month and in
    no other; a month of the range has its row whatever its bucket
    holds. *)
Theorem GetMonthlyStatistics_months (sqrtQ : Q -> Q) (DataDF : DataFrame)
  (omin omax : Obs)
  (Hmin : In omin DataDF) (Hmax : In omax DataDF)
  (Hext : forall o, In o DataDF ->
                    date_le (Date omin) (Date o) /\ date_le (Date o) (Date omax))
  (Hvalid : forall o, In o DataDF -> valid_date (Date o)) :
  let rows := GetMonthlyStatistics sqrtQ DataDF in
  let k0 := month_number (Date omin) in
  let k1 := month_number (Date omax) in
  let bucket k :=
    filter (fun o => ((year (Date o) =? k / 12)
                      && (month (Date o) =? k mod 12 + 1))%Z)
           (sort_index DataDF) in
  rows = map (fun k => monthly_row sqrtQ (month_end k) (bucket k)) (Zrange k0 k1)
  /\ StronglySorted date_lt (map Mo.index rows)
  /\ (forall o, In o DataDF ->
        (k0 <= month_number (Date o) <= k1)%Z
        /\ forall k, In o (bucket k) <-> k = month_number (Date o))
  /\ length rows = Z.to_nat (k1 - k0 + 1)
  /\ (1 <= length rows)%nat.
Proof.
  intros rows k0 k1 bucket.
  assert (Hvs : forall o, In o (sort_index DataDF) -> valid_date (Date o))
    by (intros o Ho; apply Hvalid, sort_index_In, Ho).
  assert (Hrows : rows = map (fun k => monthly_row sqrtQ (month_end k) (bucket k))
                             (Zrange k0 k1)).
  { unfold rows, GetMonthlyStatistics.
    rewrite (resample_M_bins DataDF omin omax Hmin Hmax Hext), map_map.
    apply map_ext. intros k. cbn [fst snd]. unfold bucket, rows_between.
    f_equal. apply filter_ext_in. intros o Ho.
    apply month_bin, Hvs, Ho. }
  assert (Hrange : forall o, In o DataDF ->
                     (k0 <= month_number (Date o) <= k1)%Z).
  { intros o Ho. destruct (Hext o Ho) as [H1 H2].
    apply date_leb_le in H1, H2.
    split; apply month_number_mono; auto. }
  assert (Hlen : length rows = Z.to_nat (k1 - k0 + 1))
    by (rewrite Hrows, length_map; apply Zrange_length).
  split; [exact Hrows|]. split; [|split; [|split]].
  - rewrite Hrows, map_map. cbn [monthly_row Mo.index].
    apply (StronglySorted_map Z.lt); [exact month_end_lt | apply Zrange_increasing].
  - intros o Ho. split; [now apply Hrange|].
    intros k. unfold bucket. rewrite filter_In, sort_index_In.
    destruct (Hvalid o Ho) as [Hm _].
    destruct (month_number_parts (Date o) Hm) as [Hq Hr].
    rewrite andb_true_iff, !Z.eqb_eq.
    pose proof (Z.div_mod k 12 ltac:(lia)) as Hk.
    pose proof (Z.mod_pos_bound k 12 ltac:(lia)) as Hb.
    split.
    + intros (_ & Hy & Hmo). unfold month_number. lia.
    + intros ->. split; [exact Ho|]. now rewrite Hq, Hr.
  - exact Hlen.
  - rewrite Hlen. pose proof (Hrange omin Hmin). fold k0 in H. lia.
Qed.

Lemma GetMonthlyStatistics_months_witness :
  let o1 := mkObs "USGS" (Fin 3335000) (mkdate 1969 10 1) (Fin 12) "A" in
  let o2 := mkObs "USGS" (Fin 3335000) (mkdate 1969 10 31) (Fin 7) "A" in
  let o3 := mkObs "USGS" (Fin 3335000) (mkdate 1970 1 15) NaN "A" in
  map Mo.index (GetMonthlyStatistics Qsqrt_floor [o1; o2; o3])
  = [mkdate 1969 10 31; mkdate 1969 11 30; mkdate 1969 12 31; mkdate 1970 1 31].
Proof.
  intros o1 o2 o3.
  assert (Hext : forall o, In o [o1; o2; o3] ->
                  date_le (Date o1) (Date o) /\ date_le (Date o) (Date o3)).
  { intros o [<-|[<-|[<-|[]]]]; split; vm_compute; discriminate. }
  assert (Hvalid : forall o, In o [o1; o2; o3] -> valid_date (Date o)).
  { intros o [<-|[<-|[<-|[]]]]; vm_compute; intuition discriminate. }
  destruct (GetMonthlyStatistics_months Qsqrt_floor [o1; o2; o3] o1 o3
              (or_introl eq_refl) (or_intror (or_intror (or_introl eq_refl)))
              Hext Hvalid) as (Hrows & _).
  rewrite Hrows. reflexivity.
Defined.

(** ** The annual table of a clipped sequence *)

Lemma annual_labels (sqrtQ : Q -> Q) (df : DataFrame) (omin omax : Obs) :
  In omin df -> In omax df ->
  (forall o, In o df ->
             date_le (Date omin) (Date o) /\ date_le (Date o) (Date omax)) ->
  map WY.index (GetAnnualStatistics sqrtQ df)
  = map oct1 (Zrange (water_year (Date omin)) (water_year (Date omax))).
Proof.
  intros Hmin Hmax Hext. unfold GetAnnualStatistics.
  rewrite (resample_AS_OCT_bins df omin omax Hmin Hmax Hext), !map_map.
  reflexivity.
Qed.

(** X15.  The annual table is empty exactly when the frame is: a frame
    with at least one row gives at least one water year. *)
Theorem GetAnnualStatistics_empty_iff (sqrtQ : Q -> Q) (DataDF : DataFrame) :
  GetAnnualStatistics sqrtQ DataDF = [] <-> DataDF = [].
Proof.
  split.
  - intros Hrows. destruct DataDF as [|o t]; [reflexivity|]. exfalso.
    destruct (extremes_exist (o :: t) ltac:(discriminate))
      as (omin & omax & Hmin & Hmax & Hext).
    pose proof (annual_labels sqrtQ _ omin omax Hmin Hmax Hext) as Hl.
    rewrite Hrows in Hl. cbn [map] in Hl.
    assert (Hlen : length (map oct1 (Zrange (water_year (Date omin))
                                       (water_year (Date omax)))) = 0%nat)
      by now rewrite <- Hl.
    rewrite length_map, Zrange_length in Hlen.
    destruct (Hext omin Hmin) as [_ Hle]. apply date_leb_le in Hle.
    pose proof (water_year_mono _ _ Hle). lia.
  - intros ->. reflexivity.
Qed.

(** X16.  After clipping a sequence in date order to a window, every
    row of the annual table is labelled October 1 of a water year
    between that of the window's start and that of the window's end, and
    the table has at most one row per such year. *)
Theorem GetAnnualStatistics_after_clip (sqrtQ : Q -> Q) (DataDF : DataFrame)
  (startDate endDate : date)
  (Hsorted : is_monotonic_increasing DataDF = true) :
  let rows := GetAnnualStatistics sqrtQ (fst (ClipData DataDF startDate endDate)) in
  (forall r, In r rows ->
     exists Y, WY.index r = oct1 Y
               /\ (water_year startDate <= Y <= water_year endDate)%Z)
  /\ (length rows
      <= Z.to_nat (water_year endDate - water_year startDate + 1))%nat.
Proof.
  cbv zeta. rewrite (ClipData_window _ _ _ Hsorted). cbn [fst].
  set (clip := filter (in_window startDate endDate) DataDF).
  destruct clip as [|o t] eqn:Eclip.
  - split; [intros r []|]. cbn [GetAnnualStatistics length]. simpl. lia.
  - destruct (extremes_exist (o :: t) ltac:(discriminate))
      as (omin & omax & Hmin & Hmax & Hext).
    pose proof (annual_labels sqrtQ _ omin omax Hmin Hmax Hext) as Hl.
    assert (Hw : forall x, In x (o :: t) -> in_window startDate endDate x = true).
    { intros x Hx. rewrite <- Eclip in Hx. unfold clip in Hx.
      now apply filter_In in Hx. }
    assert (H0 : (water_year startDate <= water_year (Date omin))%Z).
    { specialize (Hw omin Hmin). unfold in_window in Hw.
      apply andb_true_iff in Hw. now apply water_year_mono. }
    assert (H1 : (water_year (Date omax) <= water_year endDate)%Z).
    { specialize (Hw omax Hmax). unfold in_window in Hw.
      apply andb_true_iff in Hw. now apply water_year_mono. }
    split.
    + intros r Hr.
      assert (Hi : In (WY.index r) (map WY.index (GetAnnualStatistics sqrtQ (o :: t))))
        by now apply in_map.
      rewrite Hl in Hi. apply in_map_iff in Hi. destruct Hi as (Y & HY & HinY).
      apply Zrange_In in HinY. exists Y. split; [now symmetry | lia].
    + rewrite <- (length_map WY.index), Hl, length_map, Zrange_length. lia.
Qed.

Lemma GetAnnualStatistics_after_clip_witness :
  let o1 := mkObs "USGS" (Fin 3335000) (mkdate 1969 9 30) (Fin 12) "A" in
  let o2 := mkObs "USGS" (Fin 3335000) (mkdate 1969 10 1) (Fin 7) "A" in
  let o3 := mkObs "USGS" (Fin 3335000) (mkdate 1971 3 1) NaN "A" in
  (length (GetAnnualStatistics Qsqrt_floor
             (fst (ClipData [o1; o2; o3] (mkdate 1969 10 1) (mkdate 2019 9 30))))
   <= 50)%nat.
Proof.
  intros o1 o2 o3.
  exact (proj2 (GetAnnualStatistics_after_clip Qsqrt_floor [o1; o2; o3]
                  (mkdate 1969 10 1) (mkdate 2019 9 30) eq_refl)).
Defined.

(** * Further properties of the monthly averages *)

Lemma any_start_slice (col : Mo.Row date -> fl) (k0 : Z) (m : nat)
  (tbl : list (Mo.Row date)) :
  (m < 12)%nat ->
  month_labels_from k0 tbl = true ->
  fmean (step_slice m 12 (column col tbl))
  = calendar_month_mean col ((k0 + Z.of_nat m) mod 12 + 1) tbl.
Proof.
  intros Hm Hl. unfold step_slice, column, calendar_month_mean.
  rewrite every_kth_map, (every_12th_is_a_month k0 m tbl Hm Hl).
  reflexivity.
Qed.

(** X17.  For a monthly table labelled month by month from any month
    number [k0], the row of index [i + 1] of the averages holds, for
    each of the four metrics, the mean over the rows of the calendar
    month [(k0 + i + 3) mod 12 + 1]; so the index of a row is its
    calendar month exactly when the table starts in an October. *)
Theorem GetMonthlyAverages_any_start (MoDataDF : list (Mo.Row date)) (k0 : Z)
  (Hlabels : month_labels_from k0 MoDataDF = true) :
  let avg := GetMonthlyAverages MoDataDF in
  let month_of_row i := ((k0 + i + 3) mod 12 + 1)%Z in
  let shifted col :=
    map (fun i => calendar_month_mean col (month_of_row i) MoDataDF)
        [0; 1; 2; 3; 4; 5; 6; 7; 8; 9; 10; 11]%Z in
  map Mo.Mean_Flow avg = shifted Mo.Mean_Flow
  /\ map Mo.Coeff_Variantion avg = shifted Mo.Coeff_Variantion
  /\ map Mo.TQmean avg = shifted Mo.TQmean
  /\ map Mo.RBindex avg = shifted Mo.RBindex
  /\ ((forall i, (0 <= i < 12)%Z -> month_of_row i = (i + 1)%Z)
      <-> (k0 mod 12 = 9)%Z).
Proof.
  intros avg month_of_row shifted. unfold avg, shifted, month_of_row.
  rewrite GetMonthlyAverages_rows.
  pose proof (fun col m Hm => any_start_slice col k0 m MoDataDF Hm Hlabels) as Hs.
  unfold index_pairs.
  cbn [map fst snd Mo.Mean_Flow Mo.Coeff_Variantion Mo.TQmean Mo.RBindex].
  rewrite !Hs by lia.
  assert (Hsh : forall i j : Z, ((i + 3) mod 12 = j)%Z ->
                  ((k0 + j) mod 12 = (k0 + i + 3) mod 12)%Z).
  { intros i j <-. rewrite Zplus_mod_idemp_r. f_equal. lia. }
  cbn [Z.of_nat Pos.of_succ_nat Pos.succ].
  rewrite (Hsh 0 3)%Z, (Hsh 1 4)%Z, (Hsh 2 5)%Z, (Hsh 3 6)%Z, (Hsh 4 7)%Z,
    (Hsh 5 8)%Z, (Hsh 6 9)%Z, (Hsh 7 10)%Z, (Hsh 8 11)%Z, (Hsh 9 0)%Z,
    (Hsh 10 1)%Z, (Hsh 11 2)%Z by reflexivity.
  repeat split; try reflexivity.
  - intros H. specialize (H 0%Z ltac:(lia)).
    pose proof (Z.mod_pos_bound k0 12 ltac:(lia)).
    pose proof (Z.div_mod k0 12 ltac:(lia)).
    pose proof (Z.mod_pos_bound (k0 + 0 + 3) 12 ltac:(lia)).
    pose proof (Z.div_mod (k0 + 0 + 3) 12 ltac:(lia)).
    lia.
  - intros H i Hi.
    pose proof (Z.mod_pos_bound k0 12 ltac:(lia)).
    pose proof (Z.div_mod k0 12 ltac:(lia)).
    pose proof (Z.mod_pos_bound (k0 + i + 3) 12 ltac:(lia)).
    pose proof (Z.div_mod (k0 + i + 3) 12 ltac:(lia)).
    lia.
Qed.

Lemma GetMonthlyAverages_any_start_witness :
  let jan_table :=
    map (fun i => Mo.mkRow (month_end (1970 * 12 + Z.of_nat i))
                    (Fin 3335000) (of_nat i) (Fin 0) (Fin 0) (Fin 0))
        (seq 0 12) in
  option_map Mo.Mean_Flow (nth_error (GetMonthlyAverages jan_table) 0)
  = Some (calendar_month_mean Mo.Mean_Flow 4 jan_table).
Proof.
  intros jan_table.
  pose proof (proj1 (GetMonthlyAverages_any_start jan_table (1970 * 12)
                       ltac:(vm_compute; reflexivity))) as H.
  destruct (GetMonthlyAverages jan_table) as [|r t]; [discriminate|].
  cbn [map] in H. injection H as H0 _. cbn [nth_error option_map].
  now rewrite H0.
Defined.

Lemma sort_index_head (df : DataFrame) (omin : Obs) :
  In omin df ->
  (forall o, In o df -> date_le (Date omin) (Date o)) ->
  exists first rest, sort_index df = first :: rest /\ Date first = Date omin.
Proof.
  intros Hmin Hext.
  destruct (sort_index df) as [|first rest] eqn:E.
  - apply sort_index_In in Hmin. rewrite E in Hmin. contradiction.
  - exists first, rest. split; [reflexivity|].
    pose proof (sort_index_sorted df) as HS. rewrite E in HS.
    assert (Hin : forall o, In o (first :: rest) <-> In o df)
      by (intros o; rewrite <- E; apply sort_index_In).
    apply date_leb_antisym.
    + apply (StronglySorted_bounds first rest HS omin). now apply Hin.
    + apply date_leb_le, Hext, Hin. now left.
Qed.

(** X18.  For a frame whose earliest observation is dated in an
    October, the averages of its monthly table are in calendar order:
    the row of index [k] holds the mean, over the years, of the monthly
    values of calendar month [k]. *)
Theorem monthly_averages_of_frame (sqrtQ : Q -> Q) (DataDF : DataFrame)
  (omin : Obs)
  (Hmin : In omin DataDF)
  (Hext : forall o, In o DataDF -> date_le (Date omin) (Date o))
  (Hoct : month (Date omin) = 10%Z) :
  let tbl := GetMonthlyStatistics sqrtQ DataDF in
  let avg := GetMonthlyAverages tbl in
  let by_month col := map (fun mth => calendar_month_mean col mth tbl) in
  map Mo.index avg = calendar_order
  /\ map Mo.Mean_Flow avg = by_month Mo.Mean_Flow calendar_order
  /\ map Mo.Coeff_Variantion avg = by_month Mo.Coeff_Variantion calendar_order
  /\ map Mo.TQmean avg = by_month Mo.TQmean calendar_order
  /\ map Mo.RBindex avg = by_month Mo.RBindex calendar_order.
Proof.
  intros tbl avg by_month.
  destruct (sort_index_head DataDF omin Hmin Hext) as (first & rest & E & Hd).
  assert (Hlabels : month_labels_from (october (year (Date first))) tbl = true).
  { apply (GetMonthlyStatistics_from_october sqrtQ DataDF first rest E).
    now rewrite Hd. }
  unfold avg, by_month. rewrite GetMonthlyAverages_rows.
  pose proof (fun col m Hm =>
                october_slice col (year (Date first)) m tbl Hm Hlabels) as Hs.
  unfold index_pairs, calendar_order.
  cbn [map fst snd Mo.index Mo.Mean_Flow Mo.Coeff_Variantion Mo.TQmean
         Mo.RBindex].
  rewrite !Hs by lia.
  repeat split; reflexivity.
Qed.

Lemma monthly_averages_of_frame_witness :
  let o1 := mkObs "USGS" (Fin 3335000) (mkdate 1969 10 1) (Fin 12) "A" in
  let o2 := mkObs "USGS" (Fin 3335000) (mkdate 1969 11 5) (Fin 7) "A" in
  let o3 := mkObs "USGS" (Fin 3335000) (mkdate 1970 10 9) (Fin 4) "A" in
  map Mo.index
    (GetMonthlyAverages (GetMonthlyStatistics Qsqrt_floor [o1; o2; o3]))
  = calendar_order.
Proof.
  intros o1 o2 o3.
  refine (proj1 (monthly_averages_of_frame Qsqrt_floor [o1; o2; o3] o1
                   (or_introl eq_refl) _ eq_refl)).
  intros o [<-|[<-|[<-|[]]]]; vm_compute; discriminate.
Defined.

Lemma every_kth_short {A : Type} (k i : nat) (l : list A) :
  (length l <= i)%nat -> every_kth k i l = [].
Proof.
  revert i. induction l as [|x t IH]; intros i Hi; [reflexivity|].
  cbn [length] in Hi. destruct i as [|i']; [lia|].
  cbn [every_kth]. apply IH. lia.
Qed.

Lemma short_slice (col : Mo.Row date -> fl) (m : nat)
  (tbl : list (Mo.Row date)) :
  (length tbl <= m)%nat -> fmean (step_slice m 12 (column col tbl)) = NaN.
Proof.
  intros H. unfold step_slice, column.
  rewrite every_kth_short by (rewrite length_map; exact H).
  reflexivity.
Qed.

(** X19.  A month that a short monthly table does not reach is missing
    in the averages, not zero: when the table has no row at position
    [m], the row the pair [(n, m)] fills has index [n + 1] and its four
    metrics are missing; on the empty table its site number is missing
    too. *)
Theorem GetMonthlyAverages_short_table (MoDataDF : list (Mo.Row date))
  (n m : nat)
  (Hpair : In (n, m) index_pairs)
  (Hshort : (length MoDataDF <= m)%nat) :
  exists r, nth_error (GetMonthlyAverages MoDataDF) n = Some r
            /\ Mo.index r = Z.of_nat (S n)
            /\ Mo.Mean_Flow r = NaN
            /\ Mo.Coeff_Variantion r = NaN
            /\ Mo.TQmean r = NaN
            /\ Mo.RBindex r = NaN
            /\ (MoDataDF = [] -> Mo.site_no r = NaN).
Proof.
  rewrite GetMonthlyAverages_rows.
  unfold index_pairs in *. cbn [In] in Hpair.
  repeat (destruct Hpair as [Hpair|Hpair];
          [ injection Hpair as <- <-;
            cbn [map nth_error fst snd]; eexists; split; [reflexivity|];
            cbn [Mo.index Mo.Mean_Flow Mo.Coeff_Variantion Mo.TQmean
                   Mo.RBindex Mo.site_no];
            rewrite !short_slice by exact Hshort;
            repeat split; intros ->; reflexivity
          | ]).
  contradiction.
Qed.

Lemma GetMonthlyAverages_short_table_witness :
  exists r, nth_error (GetMonthlyAverages (firstn 5 two_years_table)) 2 = Some r
            /\ Mo.Mean_Flow r = NaN.
Proof.
  destruct (GetMonthlyAverages_short_table (firstn 5 two_years_table) 2 5)
    as (r & Hr & _ & Hm & _).
  - cbn. tauto.
  - cbn. lia.
  - exists r. split; assumption.
Defined.

(** * Further properties of the rolling means, the peak and the
      coefficient of variation *)

Lemma nth_map_seq {A : Type} (f : nat -> A) (d : A) (n i : nat) :
  (i < n)%nat -> nth i (map f (seq 0 n)) d = f i.
Proof.
  intros Hi.
  rewrite (nth_indep _ d (f 0%nat)) by (rewrite length_map, length_seq; exact Hi).
  rewrite (map_nth f (seq 0 n) 0%nat i), seq_nth by exact Hi.
  reflexivity.
Qed.

Lemma rolling_mean_length (w : nat) (s : Series) :
  length (rolling_mean w s) = length s.
Proof. unfold rolling_mean. now rewrite length_map, length_seq, length_map. Qed.

Lemma window_length_le (w i : nat) (s : Series) :
  (length (window w i s) <= i + 1)%nat.
Proof.
  unfold window. rewrite length_skipn, length_firstn. lia.
Qed.

Lemma rolling_mean_start (w i : nat) (s : Series) :
  (i + 1 < w)%nat -> nth i (rolling_mean w s) NaN = NaN.
Proof.
  intros Hi. destruct (Nat.lt_ge_cases i (length s)) as [Hlt|Hge].
  - unfold rolling_mean. cbv zeta.
    rewrite nth_map_seq by (rewrite length_map; exact Hlt).
    set (s' := map inf_to_nan s).
    pose proof (window_length_le w i s') as Hw.
    pose proof (filter_length_le notna (window w i s')) as Hf.
    unfold dropna.
    destruct (length (filter notna (window w i s')) <? w)%nat eqn:E;
      [reflexivity|].
    apply Nat.ltb_ge in E. lia.
  - apply nth_overflow. now rewrite rolling_mean_length.
Qed.

Lemma inf_to_nan_finite (qs : list Q) :
  map inf_to_nan (map Fin qs) = map Fin qs.
Proof. rewrite map_map. reflexivity. Qed.

Lemma window_of_finite (i : nat) (qs : list Q) :
  (6 <= i)%nat ->
  window 7 i (map Fin qs) = map Fin (firstn 7 (skipn (i - 6) qs)).
Proof.
  intros Hi. unfold window.
  rewrite firstn_map, skipn_map. f_equal.
  replace (i + 1 - 7)%nat with (i - 6)%nat by lia.
  rewrite firstn_skipn_comm. f_equal. f_equal. lia.
Qed.

(** X20.  The series whose method [Calc7Q] returns holds one entry per
    present reading; its first six entries are missing, and from the
    seventh on an entry is the arithmetic mean of the seven present
    readings that end with it. *)
Theorem Calc7Q_rolling_means (b : list (option Q)) :
  exists s,
    Calc7Q (of_readings b) = PyBoundMethod "min" s
    /\ length s = length (present_values b)
    /\ (forall i, (i < 6)%nat -> nth i s NaN = NaN)
    /\ (forall i, (6 <= i < length (present_values b))%nat ->
          nth i s NaN
          =f= Fin (total (firstn 7 (skipn (i - 6) (present_values b))) / 7)).
Proof.
  exists (rolling_mean 7 (dropna (of_readings b))).
  split; [reflexivity|].
  rewrite dropna_of_readings.
  split; [now rewrite rolling_mean_length, length_map|].
  split.
  - intros i Hi. apply rolling_mean_start. lia.
  - intros i [H6 Hn]. set (qs := present_values b) in *.
    unfold rolling_mean. cbv zeta. rewrite inf_to_nan_finite.
    rewrite nth_map_seq by (rewrite length_map; exact Hn).
    rewrite (window_of_finite i qs H6), dropna_map_Fin, length_map.
    assert (Hlen : length (firstn 7 (skipn (i - 6) qs)) = 7%nat)
      by (rewrite length_firstn, length_skipn; lia).
    rewrite Hlen. cbn [Nat.ltb Nat.leb].
    assert (Hne : firstn 7 (skipn (i - 6) qs) <> [])
      by (intros E; rewrite E in Hlen; discriminate).
    rewrite (fmean_of_finite _ Hne), Hlen. reflexivity.
Qed.

(** ** Peak flow *)

Lemma fold_fmax2_finite (x : Q) (t : list Q) :
  exists m, fold_left fmax2 (map Fin t) (Fin x) = Fin m
            /\ In m (x :: t)
            /\ forall q, In q (x :: t) -> q <= m.
Proof.
  revert x. induction t as [|y t IH]; intros x.
  - exists x. split; [reflexivity|]. split; [now left|].
    intros q [<-|[]]. lra.
  - cbn [map fold_left]. unfold fmax2 at 2.
    change (fgt (Fin y) (Fin x)) with (Qgt_bool y x).
    destruct (Qgt_bool y x) eqn:E.
    + apply Qgt_bool_true in E.
      destruct (IH y) as (m & Hm & Hin & Hall).
      exists m. split; [exact Hm|]. split; [now right|].
      intros q [<-|Hq]; [|now apply Hall].
      pose proof (Hall y (or_introl eq_refl)). lra.
    + apply Qgt_bool_false in E.
      destruct (IH x) as (m & Hm & Hin & Hall).
      exists m. split; [exact Hm|]. split.
      * destruct Hin as [<-|Hin]; [now left | right; now right].
      * intros q [<-|[<-|Hq]].
        -- apply Hall. now left.
        -- pose proof (Hall x (or_introl eq_refl)). lra.
        -- apply Hall. now right.
Qed.

(** X21.  On a bucket with a present reading the peak flow is one of
    the present readings and none of them is greater. *)
Theorem peak_is_a_reading (b : list (option Q)) (Hne : present_values b <> []) :
  exists peak,
    smax (of_readings b) = Fin peak
    /\ In peak (present_values b)
    /\ forall q, In q (present_values b) -> q <= peak.
Proof.
  unfold smax. rewrite dropna_of_readings.
  destruct (present_values b) as [|x t] eqn:Ep; [congruence|].
  cbn [map].
  destruct (fold_fmax2_finite x t) as (m & Hm & Hin & Hall).
  exists m. repeat split; auto.
Qed.

Lemma peak_is_a_reading_witness :
  exists peak,
    smax (of_readings [Some 3; None; Some 8; Some 1]) = Fin peak
    /\ In peak [3; 8; 1].
Proof.
  destruct (peak_is_a_reading [Some 3; None; Some 8; Some 1]
              ltac:(discriminate)) as (p & Hp & Hin & _).
  exists p. split; assumption.
Defined.

(** ** The coefficient of variation at its edges *)

(** X22.  The coefficient of variation of a bucket with fewer than two
    present readings is missing, whatever the readings; and that of a
    bucket of two or more present readings all equal to one value, not
    zero, is 0 (for a square root that is 0 at 0). *)
Theorem coeff_var_edges (sqrtQ : Q -> Q)
  (Hzero : forall q, q == 0 -> sqrtQ q == 0)
  (b : list (option Q)) :
  ((length (present_values b) <= 1)%nat ->
   coeff_var sqrtQ (of_readings b) = NaN)
  /\ (forall v, (2 <= length (present_values b))%nat ->
        Forall (fun q => q == v) (present_values b) -> ~ v == 0 ->
        coeff_var sqrtQ (of_readings b) =f= Fin 0).
Proof.
  pose proof (dropna_of_readings b) as Hp.
  split.
  - intros Hlen. unfold coeff_var, fstd, fvar.
    rewrite Hp, length_map.
    destruct (length (present_values b) <=? 1)%nat eqn:E;
      [reflexivity | apply Nat.leb_gt in E; lia].
  - intros v Hlen Hall Hv.
    assert (Hne : present_values b <> [])
      by (intros E; rewrite E in Hlen; cbn in Hlen; lia).
    pose proof (of_nat_pos _ (length_pos_of_ne _ Hne)) as Hpos.
    pose proof (fmean_of_finite _ Hne) as Hmean.
    rewrite <- Hp, fmean_dropna in Hmean.
    destruct (fmean (of_readings b)) as [m| | |] eqn:Em; cbn [feq] in Hmean;
      try contradiction.
    assert (Hmv : m == v).
    { rewrite Hmean, (total_const _ v Hall). field. lra. }
    destruct (fvar_finite (of_readings b) _ m Hp Em Hlen) as (x & Hx & _ & Hx0).
    assert (Hxz : x == 0).
    { apply Hx0. eapply Forall_impl; [|exact Hall].
      intros a Ha. cbn beta in Ha. lra. }
    unfold coeff_var, fstd. rewrite Hx, Em. cbn [fsqrt].
    assert (Hc : (x ?= 0) = Eq) by now rewrite <- Qeq_alt.
    rewrite Hc, fdiv_fin by lra. cbn [fmul feq].
    rewrite (Hzero x Hxz). field. lra.
Qed.

Lemma coeff_var_edges_witness :
  coeff_var Qsqrt_floor (of_readings [Some 5; None; Some 5; Some 5]) =f= Fin 0.
Proof.
  apply (proj2 (coeff_var_edges Qsqrt_floor Qsqrt_floor_zero
                  [Some 5; None; Some 5; Some 5]) 5).
  - cbn. lia.
  - repeat constructor.
  - discriminate.
Defined.

(** ** The Tqmean column of the tables *)

Lemma CalcTqmean_cases (Qvalues : Series) :
  CalcTqmean Qvalues = NaN
  \/ exists q, CalcTqmean Qvalues = Fin q /\ 0 <= q <= 1.
Proof.
  destruct (dropna Qvalues) as [|x t] eqn:E.
  - left. unfold CalcTqmean. rewrite E. reflexivity.
  - right.
    assert (Hn : dropna Qvalues <> []) by (rewrite E; discriminate).
    rewrite (CalcTqmean_unfold Qvalues Hn).
    eexists. split; [reflexivity|].
    apply ratio_in_unit.
    + unfold count_gt. apply filter_length_le.
    + now apply length_pos_of_ne.
Qed.

Lemma count_gt_le_length (s : Series) (m : fl) :
  (count_gt s m <= length s)%nat.
Proof. unfold count_gt. apply filter_length_le. Qed.

(** X23.  In every row of the annual table and of the monthly table,
    for every frame, the Tqmean cell is missing or a fraction from 0 to
    1, both included; and in every row of the annual table the count of
    days above three times the median is at most the number of rows of
    the frame. *)
Theorem table_cells_bounded (sqrtQ : Q -> Q) (DataDF : DataFrame) :
  (forall r, In r (GetAnnualStatistics sqrtQ DataDF) ->
     (WY.TQmean r = NaN
      \/ exists q, WY.TQmean r = Fin q /\ 0 <= q <= 1)
     /\ (WY.Median3x r <= length DataDF)%nat)
  /\ (forall r, In r (GetMonthlyStatistics sqrtQ DataDF) ->
        Mo.TQmean r = NaN
        \/ exists q, Mo.TQmean r = Fin q /\ 0 <= q <= 1).
Proof.
  split.
  - intros r Hr. unfold GetAnnualStatistics in Hr.
    apply in_map_iff in Hr. destruct Hr as ([lbl grp] & <- & Hbin).
    cbn [fst snd annual_row WY.TQmean WY.Median3x].
    split; [apply CalcTqmean_cases|].
    unfold CalcExceed3TimesMedian.
    eapply Nat.le_trans; [apply count_gt_le_length|].
    eapply Nat.le_trans; [apply filter_length_le|].
    unfold column. rewrite length_map.
    unfold resample_AS_OCT in Hbin.
    destruct (sort_index DataDF) as [|first rest] eqn:E; [contradiction|].
    apply in_map_iff in Hbin. destruct Hbin as (Y & HY & _).
    apply (f_equal snd) in HY. cbn [snd] in HY. rewrite <- HY.
    unfold rows_between.
    eapply Nat.le_trans; [apply filter_length_le|].
    rewrite <- E. apply Nat.eq_le_incl.
    apply Permutation_length, sort_index_perm.
  - intros r Hr. unfold GetMonthlyStatistics in Hr.
    apply in_map_iff in Hr. destruct Hr as ([lbl grp] & <- & _).
    cbn [fst snd monthly_row Mo.TQmean]. apply CalcTqmean_cases.
Qed.

(** * Properties that depend on rounding *)

Lemma SFcompare_refl (x : SpecFloat.spec_float) :
  SpecFloat.SFcompare x x = Some Eq \/ SpecFloat.SFcompare x x = None.
Proof.
  destruct x as [s|s| |s m e]; [left|left|right|left];
    try destruct s; cbn [SpecFloat.SFcompare]; try reflexivity.
  - rewrite Z.compare_refl.
    change (Pos.compare_cont Eq m m) with (Pos.compare m m).
    now rewrite Pos.compare_refl.
  - rewrite Z.compare_refl.
    change (Pos.compare_cont Eq m m) with (Pos.compare m m).
    now rewrite Pos.compare_refl.
Qed.

Lemma ltb_irrefl (v : PrimFloat.float) : PrimFloat.ltb v v = false.
Proof.
  rewrite FloatAxioms.ltb_spec. unfold SpecFloat.SFltb.
  destruct (SFcompare_refl (FloatOps.Prim2SF v)) as [-> | ->]; reflexivity.
Qed.

Lemma IEEE_CalcTqmean_unfold (array_sum : list PrimFloat.float -> PrimFloat.float)
  (Qvalues : IEEE.Series) :
  IEEE.dropna Qvalues <> [] ->
  IEEE.CalcTqmean array_sum Qvalues
  = Fin (inject_Z (Z.of_nat
           (length (filter (fun v => PrimFloat.ltb
                                       (IEEE.mean array_sum (IEEE.dropna Qvalues)) v)
                      (IEEE.dropna Qvalues))))
         / inject_Z (Z.of_nat (length (IEEE.dropna Qvalues)))).
Proof.
  intros Hne. unfold IEEE.CalcTqmean, of_nat.
  apply fdiv_fin.
  pose proof (of_nat_pos _ (length_pos_of_ne _ Hne)). lra.
Qed.



Lemma filter_const {A : Type} (f : A -> bool) (v : A) (l : list A) :
  Forall (fun x => x = v) l ->
  filter f l = if f v then l else [].
Proof.
  induction 1 as [|x t Hx Ht IH]; [now destruct (f v)|].
  subst x. cbn [filter]. rewrite IH. now destruct (f v).
Qed.

(** C10, as stated, fails on six readings of one tenth: the computed
    mean, 0.6 / 6, is the double just below one tenth, every reading is
    above it, and [CalcTqmean] is 1, not 0. *)
Lemma CalcTqmean_constant_bucket_gives_one :
  Forall (fun x => x = IEEE.tenth) (IEEE.dropna IEEE.six_tenths)
  /\ PrimFloat.ltb (IEEE.mean IEEE.seq_sum IEEE.six_tenths) IEEE.tenth = true
  /\ IEEE.CalcTqmean IEEE.seq_sum IEEE.six_tenths =f= Fin 1
  /\ ~ IEEE.CalcTqmean IEEE.seq_sum IEEE.six_tenths =f= Fin 0.
Proof.
  split; [vm_compute; repeat constructor|].
  split; [vm_compute; reflexivity|].
  split; [vm_compute; reflexivity|].
  vm_compute. discriminate.
Qed.

(** C10, as the code has it.  On a bucket with at least one present
    value and all present values the same double, the comparison with
    the computed mean has one outcome for every value: [CalcTqmean] is
    0 when the computed mean is not below the common value, as it is
    whenever the mean comes out exactly, and 1 when rounding puts the
    computed mean below the common value. *)
Theorem CalcTqmean_constant_zero_or_one
  (array_sum : list PrimFloat.float -> PrimFloat.float)
  (Qvalues : IEEE.Series) (v : PrimFloat.float)
  (Hn : IEEE.dropna Qvalues <> [])
  (Hall : Forall (fun x => x = v) (IEEE.dropna Qvalues)) :
  let mean := IEEE.mean array_sum (IEEE.dropna Qvalues) in
  (PrimFloat.ltb mean v = false -> IEEE.CalcTqmean array_sum Qvalues =f= Fin 0)
  /\ (PrimFloat.ltb mean v = true -> IEEE.CalcTqmean array_sum Qvalues =f= Fin 1)
  /\ (mean = v -> IEEE.CalcTqmean array_sum Qvalues =f= Fin 0)
  /\ (IEEE.CalcTqmean array_sum Qvalues =f= Fin 0
      \/ IEEE.CalcTqmean array_sum Qvalues =f= Fin 1).
Proof.
  cbv zeta.
  pose proof (of_nat_pos _ (length_pos_of_ne _ Hn)) as Hpos.
  rewrite (IEEE_CalcTqmean_unfold array_sum Qvalues Hn).
  rewrite (filter_const _ v _ Hall).
  assert (H0 : PrimFloat.ltb (IEEE.mean array_sum (IEEE.dropna Qvalues)) v = false ->
               Fin (inject_Z (Z.of_nat (length
                      (if PrimFloat.ltb (IEEE.mean array_sum (IEEE.dropna Qvalues)) v
                       then IEEE.dropna Qvalues else [])))
                    / inject_Z (Z.of_nat (length (IEEE.dropna Qvalues))))
               =f= Fin 0).
  { intros ->. cbn [length feq]. change (inject_Z (Z.of_nat 0)) with 0.
    field. lra. }
  assert (H1 : PrimFloat.ltb (IEEE.mean array_sum (IEEE.dropna Qvalues)) v = true ->
               Fin (inject_Z (Z.of_nat (length
                      (if PrimFloat.ltb (IEEE.mean array_sum (IEEE.dropna Qvalues)) v
                       then IEEE.dropna Qvalues else [])))
                    / inject_Z (Z.of_nat (length (IEEE.dropna Qvalues))))
               =f= Fin 1).
  { intros ->. cbn [feq]. field. lra. }
  split; [exact H0|]. split; [exact H1|]. split.
  - intros E. apply H0. rewrite E. apply ltb_irrefl.
  - destruct (PrimFloat.ltb (IEEE.mean array_sum (IEEE.dropna Qvalues)) v) eqn:E;
      [right; now apply H1 | left; now apply H0].
Qed.

Lemma CalcTqmean_constant_zero_or_one_witness :
  IEEE.CalcTqmean IEEE.seq_sum IEEE.three_fives =f= Fin 0.
Proof.
  refine (proj1 (CalcTqmean_constant_zero_or_one IEEE.seq_sum IEEE.three_fives
                   (IEEE.float_of_nat 5) _ _) _).
  - vm_compute. discriminate.
  - vm_compute. repeat constructor.
  - vm_compute. reflexivity.
Defined.

